(** * ZipRecruiter scraper: a shallow embedding of [main.py] and [config.py]

    The scraper is an asyncio program built from three layers:
    [HTTPClient] (an ordered fallback over three HTTP libraries),
    [CSVWriter] (the sink) and [ZipRecruiterScraper] (pagination walk,
    detail extraction, per-query fan-out with [asyncio.gather]).

    Everything outside the repository (the network, BeautifulSoup,
    [json.loads], the wall clock, the disk) is an oracle gathered in the
    record [World]. The program text itself is embedded in a resumption
    monad [Coro] whose [Await] nodes are the places where a coroutine
    hands control back to the event loop.

    Conventions of the model:
    - a coroutine has two readings: [exec] runs it alone from start to
      end; the event loop ([await], [gather]) runs it segment by
      segment, interleaved with the other tasks as a [schedule] says;
    - only the aiohttp and httpx calls suspend: [tls_client] blocks;
    - the disk refuses at [open] or not at all;
    - strings are the UTF-8 bytes of the Python text;
    - the depth of the pagination recursion is bounded by the
      interpreter's recursion limit, a parameter of the model. *)

From Stdlib Require Import ZArith List String Ascii Bool Lia Sorted.
From stdpp Require Import base option list gmap strings pretty.

Local Open Scope Z_scope.
Local Open Scope string_scope.
Local Open Scope list_scope.

(** ** Python values and exceptions *)

(** The exception classes that occur in the program. All of them derive
    from [Exception], so every [except Exception] clause catches each. *)
Inductive PyExc : Type :=
| Exception_ (msg : string)
| UnboundLocalError (var : string)
| ValueError (msg : string)
| KeyError (key : string)
| TypeError (msg : string)
| JSONDecodeError (msg : string)
| OSError (msg : string)
| RecursionError.

(** The result of evaluating a statement or an expression. *)
Inductive Result (A : Type) : Type :=
| Ok (a : A)
| Raise (e : PyExc).
Arguments Ok {A} a.
Arguments Raise {A} e.

#[export] Instance result_mret : MRet Result := fun A a => Ok a.
#[export] Instance result_mbind : MBind Result := fun A B f r =>
  match r with
  | Ok a => f a
  | Raise e => Raise e
  end.

(** What [json.loads] builds. An object keeps its members as a list of
    pairs; [json.loads] has already resolved repeated keys. *)
#[warnings="-register-all"] Inductive json : Type :=
| JNull
| JBool (b : bool)
| JNum (literal : string)
| JStr (s : string)
| JArr (items : list json)
| JObj (members : list (string * json)).

Fixpoint assoc (key : string) (members : list (string * json)) : option json :=
  match members with
  | [] => None
  | (k, v) :: rest => if String.eqb k key then Some v else assoc key rest
  end.

(** [v[key]] for a string key. *)
Definition getitem (v : json) (key : string) : Result json :=
  match v with
  | JObj members =>
      match assoc key members with
      | Some x => Ok x
      | None => Raise (KeyError key)
      end
  | JStr _ => Raise (TypeError "string indices must be integers")
  | JArr _ => Raise (TypeError "list indices must be integers or slices, not str")
  | _ => Raise (TypeError "object is not subscriptable")
  end.

(** [v[k1][k2]...] *)
Fixpoint getpath (v : json) (keys : list string) : Result json :=
  match keys with
  | [] => Ok v
  | key :: rest =>
      match getitem v key with
      | Ok x => getpath x rest
      | Raise e => Raise e
      end
  end.

(** ** String helpers of the Python runtime *)

(** The value of a byte. *)
Definition code (c : ascii) : nat := nat_of_ascii c.

Definition chars (s : string) : list ascii := list_ascii_of_string s.
Definition unchars (l : list ascii) : string := string_of_list_ascii l.

(** White space as [str.strip] sees it, on the UTF-8 bytes of the text:
    the one-byte characters U+0009 to U+000D and U+001C to U+0020, ... *)
Definition isspace (c : ascii) : bool :=
  let n := code c in
  (((9 <=? n) && (n <=? 13)) || ((28 <=? n) && (n <=? 32)))%nat.

(** ... the two-byte characters U+0085 and U+00A0, ... *)
Definition isspace2 (a b : ascii) : bool :=
  ((code a =? 194) && ((code b =? 133) || (code b =? 160)))%nat.

(** ... and the three-byte characters U+1680, U+2000 to U+200A, U+2028,
    U+2029, U+202F, U+205F and U+3000. *)
Definition isspace3 (a b c : ascii) : bool :=
  (((code a =? 225) && (code b =? 154) && (code c =? 128))
   || ((code a =? 226) && (code b =? 128)
       && (((128 <=? code c) && (code c <=? 138))
           || (code c =? 168) || (code c =? 169) || (code c =? 175)))
   || ((code a =? 226) && (code b =? 129) && (code c =? 159))
   || ((code a =? 227) && (code b =? 128) && (code c =? 128)))%nat.

Fixpoint lstrip_chars (l : list ascii) : list ascii :=
  match l with
  | a :: r1 =>
      if isspace a then lstrip_chars r1
      else
        match r1 with
        | b :: r2 =>
            if isspace2 a b then lstrip_chars r2
            else
              match r2 with
              | c :: r3 => if isspace3 a b c then lstrip_chars r3 else l
              | [] => l
              end
        | [] => l
        end
  | [] => []
  end.

(** The same from the end, on the reversed list of bytes. *)
Fixpoint rstrip_reversed (l : list ascii) : list ascii :=
  match l with
  | a :: r1 =>
      if isspace a then rstrip_reversed r1
      else
        match r1 with
        | b :: r2 =>
            if isspace2 b a then rstrip_reversed r2
            else
              match r2 with
              | c :: r3 => if isspace3 c b a then rstrip_reversed r3 else l
              | [] => l
              end
        | [] => l
        end
  | [] => []
  end.

(** [s.strip()] *)
Definition py_strip (s : string) : string :=
  unchars (rev (rstrip_reversed (rev (lstrip_chars (chars s))))).

Fixpoint drop_string (n : nat) (s : string) : string :=
  match n, s with
  | S n', String _ r => drop_string n' r
  | _, _ => s
  end.

(** [s[:n]]: the first [n] characters. A byte that continues a
    character (10xxxxxx) belongs to the character before it. *)
Fixpoint take_string (n : nat) (s : string) : string :=
  match s with
  | "" => ""
  | String c r =>
      if ((128 <=? code c) && (code c <? 192))%nat then String c (take_string n r)
      else
        match n with
        | O => ""
        | S n' => String c (take_string n' r)
        end
  end.

(** [s.replace(old, new)] for a non-empty [old], scanning left to right;
    [fuel] bounds the scan by the length of [s]. *)
Fixpoint replace_go (fuel : nat) (old new s : string) : string :=
  match fuel with
  | O => s
  | S fuel' =>
      match s with
      | "" => ""
      | String c r =>
          if String.prefix old s
          then new +:+ replace_go fuel' old new (drop_string (String.length old) s)
          else String c (replace_go fuel' old new r)
      end
  end.

Definition py_replace (old new s : string) : string :=
  replace_go (String.length s) old new s.

(** [s.split('/')[-1]]: what follows the last slash. *)
Fixpoint last_segment_go (acc : string) (s : string) : string :=
  match s with
  | "" => acc
  | String c r =>
      if Ascii.eqb c "/" then last_segment_go "" r
      else last_segment_go (acc +:+ String c "") r
  end.

Definition last_segment (s : string) : string := last_segment_go "" s.

Definition digit_val (c : ascii) : option Z :=
  let n := nat_of_ascii c in
  if ((48 <=? n) && (n <=? 57))%nat then Some (Z.of_nat (n - 48)) else None.

(** Decimal digits, a single underscore allowed between two digits. *)
Fixpoint parse_digits (acc : Z) (after_digit : bool) (l : list ascii) : option Z :=
  match l with
  | [] => if after_digit then Some acc else None
  | c :: r =>
      match digit_val c with
      | Some d => parse_digits (10 * acc + d) true r
      | None =>
          if Ascii.eqb c "_" && after_digit then parse_digits acc false r
          else None
      end
  end.

(** White space as the C library sees it: what [int] skips around the
    digits of an ASCII text. *)
Definition c_isspace (c : ascii) : bool :=
  (((9 <=? code c) && (code c <=? 13)) || (code c =? 32))%nat.

Fixpoint skip_spaces (l : list ascii) : list ascii :=
  match l with
  | c :: r => if c_isspace c then skip_spaces r else l
  | [] => []
  end.

Definition is_digit (c : ascii) : bool :=
  match digit_val c with
  | Some _ => true
  | None => false
  end.

(** The interpreter's default limit on the number of digits [int]
    converts ([sys.int_info.default_max_str_digits]). *)
Definition max_str_digits : nat := 4300.

Definition is_ascii (s : string) : bool :=
  forallb (fun c => (code c <? 128)%nat) (chars s).

(** [int(s)] on ASCII text: white space around, an optional sign,
    decimal digits, no more of them than the limit. [None] stands for
    [ValueError]. *)
Definition py_int (s : string) : option Z :=
  let l := rev (skip_spaces (rev (skip_spaces (chars s)))) in
  let digits := match l with
                | "+"%char :: r => r
                | "-"%char :: r => r
                | _ => l
                end in
  if (length (List.filter is_digit digits) <=? max_str_digits)%nat then
    match l with
    | "+"%char :: r => parse_digits 0 false r
    | "-"%char :: r => Z.opp <$> parse_digits 0 false r
    | _ => parse_digits 0 false l
    end
  else None.

Definition hex_digit (n : nat) : ascii :=
  if (n <? 10)%nat then ascii_of_nat (48 + n) else ascii_of_nat (55 + n).

(** The value of a hexadecimal digit. *)
Definition hex_val (c : ascii) : nat :=
  if (code c <? 58)%nat then (code c - 48)%nat else (code c - 55)%nat.

Definition url_safe (c : ascii) : bool :=
  let n := nat_of_ascii c in
  (((48 <=? n) && (n <=? 57)) || ((65 <=? n) && (n <=? 90))
   || ((97 <=? n) && (n <=? 122))
   || (n =? 95) || (n =? 46) || (n =? 45) || (n =? 126))%nat.

(** [urllib.parse.quote_plus] on the UTF-8 bytes of its argument. *)
Fixpoint quote_plus (s : string) : string :=
  match s with
  | "" => ""
  | String c r =>
      let n := nat_of_ascii c in
      if url_safe c then String c (quote_plus r)
      else if (n =? 32)%nat then String "+" (quote_plus r)
      else String "%" (String (hex_digit (n / 16)) (String (hex_digit (n mod 16)) (quote_plus r)))
  end.

(** [str(n)] for an [int]. *)
Definition str_int (n : Z) : string := pretty n.

(** [urlencode({'page': page_number, 'q': query})] *)
Definition urlencode (page_number : Z) (query : string) : string :=
  "page=" +:+ quote_plus (str_int page_number) +:+ "&q=" +:+ quote_plus query.

(** ** Dates *)

Record DateTime : Type := mkDateTime {
  year : nat; month : nat; day : nat;
  hour : nat; minute : nat; second : nat
}.

Definition pad2 (n : nat) : string :=
  if (n <? 10)%nat then "0" +:+ pretty n else pretty n.

(** [strftime('%Y-%m-%d %H:%M:%S')] *)
Definition strftime_iso (d : DateTime) : string :=
  pretty (year d) +:+ "-" +:+ pad2 (month d) +:+ "-" +:+ pad2 (day d) +:+ " "
  +:+ pad2 (hour d) +:+ ":" +:+ pad2 (minute d) +:+ ":" +:+ pad2 (second d).

(** [strftime('%d-%m-%Y')] *)
Definition strftime_dmy (d : DateTime) : string :=
  pad2 (day d) +:+ "-" +:+ pad2 (month d) +:+ "-" +:+ pretty (year d).


(** ** The outside world *)

(** The three HTTP libraries [HTTPClient] falls back over. *)
Inductive Strategy : Type := Tls | Aiohttp | Httpx.

(** One GET through one library: the response text, or the exception the
    library raised. *)
Inductive Response : Type :=
| Text (body : string)
| TransportError (msg : string).

(** What the listing-page selectors find: the text of the first
    [<a rel="next">] and, for every [<a class="jobList-title">], its
    [href] attribute when it has one. *)
Record Listing : Type := mkListing {
  next_page_link : option string;
  jobList_title : list (option string)
}.

(** What the detail-page selectors find: the text of the first
    [<script type="application/ld+json">] and of the first
    [<div class="job-posting-reference">]. *)
Record DetailSoup : Type := mkDetailSoup {
  ld_json : option string;
  job_posting_reference : option string
}.

(** Every oracle that depends on the moment it is consulted takes the
    value of the program's [clock], which counts oracle consultations.
    [int_of_unicode] is what [int] makes of a text that has a character
    outside ASCII ([None] for [ValueError]). *)
Record World : Type := mkWorld {
  net : nat -> Strategy -> string -> Response;
  listing_soup : string -> Listing;
  detail_soup : string -> DetailSoup;
  json_loads : string -> option json;
  soup_text : string -> string;
  now : nat -> DateTime;
  open_error : nat -> string -> option string;
  int_of_unicode : string -> option Z
}.

(** ** The job record and the CSV file *)

(** The dict that [get_details] returns, one field per key (the key
    "State" is the field [State_]). The values taken from the ld+json
    block are whatever JSON values the block has there. *)
Record JobRecord : Type := mkJobRecord {
  Domain : string;
  PostUrl : string;
  JobID : string;
  Title : json;
  City : json;
  State_ : json;
  Speciality : string;
  JobType : json;
  JobDetails : string;
  Industry : string;
  Company : json;
  PostedOn : json;
  SalaryFrom : string;
  SalaryUpto : string;
  PayoutTerm : string;
  IsEstimatedSalary : bool;
  ScrapedOn : string
}.

(** The keys of the dict literal that [get_details] returns. *)
Definition record_keys : list string :=
  ["Domain"; "PostUrl"; "JobID"; "Title"; "City"; "State";
   "Speciality"; "JobType"; "JobDetails"; "Industry"; "Company";
   "PostedOn"; "SalaryFrom"; "SalaryUpto"; "PayoutTerm";
   "IsEstimatedSalary"; "ScrapedOn"].

(** A line of the output file: what [writeheader] or [writerow] wrote. *)
Inductive CsvLine : Type :=
| Header (fieldnames : list string)
| Row (data : JobRecord).

(** ** The log *)

Inductive Level : Type := INFO | WARNING | ERROR.

(** One constructor per logging call of [main.py], carrying the values
    interpolated into its message. *)
Inductive Message : Type :=
| TlsClientError (msg : string)
| AiohttpError (msg : string)
| HttpxError (msg : string)
| FetchingURL (tail : string)
| FetchedURL (tail : string)
| FetchMethodFailed (e : PyExc)
| GettingDetails (tail : string)
| ErrorGettingDetails (tail : string) (e : PyExc)
| StartingToLoad
| NoResponse (page_number : Z)
| FoundLinks (count : nat) (page_number : Z)
| NoLinksFound (page_number : Z)
| NoMorePages
| ErrorParsingPage (page_number : Z) (e : PyExc)
| ResponseContent (head : string)
| TotalLinksFound (count : nat)
| SuccessfullyScraped (title : json)
| NoDataFound (link : string)
| StartingScraping
| NoLinksToProcess (query : string)
| ProcessingLinks (count : nat) (query : string)
| ErrorInRun (query : string) (e : PyExc)
| MainExecutionError (e : PyExc).

(** ** Program state *)

(** [clock], [log], [fs] and [job_links] are the mutable things the
    program touches: oracle time, the logger's output, the files on disk
    and the scraper's [self.job_links]. [calls] and [visited] are
    instrumentation: the library calls made and the listing pages asked
    for, in order. *)
Record State : Type := mkState {
  clock : nat;
  log : list (Level * Message);
  fs : gmap string (list CsvLine);
  job_links : list string;
  calls : list (Strategy * string);
  visited : list Z
}.

Definition set_clock (n : nat) (s : State) : State :=
  mkState n (log s) (fs s) (job_links s) (calls s) (visited s).
Definition set_log (l : list (Level * Message)) (s : State) : State :=
  mkState (clock s) l (fs s) (job_links s) (calls s) (visited s).
Definition set_fs (m : gmap string (list CsvLine)) (s : State) : State :=
  mkState (clock s) (log s) m (job_links s) (calls s) (visited s).
Definition set_job_links (l : list string) (s : State) : State :=
  mkState (clock s) (log s) (fs s) l (calls s) (visited s).
Definition set_calls (l : list (Strategy * string)) (s : State) : State :=
  mkState (clock s) (log s) (fs s) (job_links s) l (visited s).
Definition set_visited (l : list Z) (s : State) : State :=
  mkState (clock s) (log s) (fs s) (job_links s) (calls s) l.

(** ** Coroutines *)

(** A coroutine is a tree of state reads and writes that ends in a value
    or a raised exception; [Await] marks a point where the coroutine is
    suspended on I/O and the event loop may run something else. *)
Inductive Coro (A : Type) : Type :=
| Ret (r : Result A)
| Read (k : State -> Coro A)
| Write (s : State) (k : Coro A)
| Await (k : Coro A).
Arguments Ret {A} r.
Arguments Read {A} k.
Arguments Write {A} s k.
Arguments Await {A} k.

Fixpoint coro_bind {A B : Type} (f : A -> Coro B) (m : Coro A) : Coro B :=
  match m with
  | Ret (Ok a) => f a
  | Ret (Raise e) => Ret (Raise e)
  | Read k => Read (fun s => coro_bind f (k s))
  | Write s k => Write s (coro_bind f k)
  | Await k => Await (coro_bind f k)
  end.

#[export] Instance coro_mret : MRet Coro := fun A a => Ret (Ok a).
#[export] Instance coro_mbind : MBind Coro := fun A B f m => coro_bind f m.

(** [raise e] *)
Definition raise {A : Type} (e : PyExc) : Coro A := Ret (Raise e).

(** [try: m  except Exception as e: h e] *)
Fixpoint try_except {A : Type} (m : Coro A) (h : PyExc -> Coro A) : Coro A :=
  match m with
  | Ret (Ok a) => Ret (Ok a)
  | Ret (Raise e) => h e
  | Read k => Read (fun s => try_except (k s) h)
  | Write s k => Write s (try_except k h)
  | Await k => Await (try_except k h)
  end.

(** Evaluate a statement and hand its result, normal or exceptional, to
    the continuation. *)
Fixpoint attempt {A : Type} (m : Coro A) : Coro (Result A) :=
  match m with
  | Ret r => Ret (Ok r)
  | Read k => Read (fun s => attempt (k s))
  | Write s k => Write s (attempt k)
  | Await k => Await (attempt k)
  end.

Definition get : Coro State := Read (fun s => Ret (Ok s)).
Definition modify (f : State -> State) : Coro unit :=
  Read (fun s => Write (f s) (Ret (Ok tt))).
Definition suspend : Coro unit := Await (Ret (Ok tt)).
Definition lift {A : Type} (r : Result A) : Coro A := Ret r.

(** Consulting an oracle advances the clock. *)
Definition tick : Coro nat :=
  Read (fun s => Write (set_clock (S (clock s)) s) (Ret (Ok (clock s)))).

Definition logger (lvl : Level) (m : Message) : Coro unit :=
  modify (fun s => set_log (log s ++ [(lvl, m)]) s).
Definition logger_info := logger INFO.
Definition logger_warning := logger WARNING.
Definition logger_error := logger ERROR.

(** The coroutine awaited on its own, with nothing else scheduled in
    between: the sequential meaning of the program text. *)
Fixpoint exec {A : Type} (m : Coro A) (s : State) : State * Result A :=
  match m with
  | Ret r => (s, r)
  | Read k => exec (k s) s
  | Write s' k => exec k s'
  | Await k => exec k s
  end.

(** The coroutine resumed once: it runs up to its next suspension, where
    it leaves what remains to be done, or to its end. *)
Fixpoint segment {A : Type} (m : Coro A) (s : State) : State * (Result A + Coro A) :=
  match m with
  | Ret r => (s, inl r)
  | Read k => segment (k s) s
  | Write s' k => segment k s'
  | Await k => (s, inr k)
  end.

(** [if x:] for a string. *)
Definition nonempty (s : string) : bool :=
  match s with "" => false | _ => true end.

(** ** class HTTPClient *)

Section HTTPClient.
Context (w : World).

(** The library call itself: it is recorded, the clock advances and the
    world answers. *)
Definition request (lib : Strategy) (url : string) : Coro Response :=
  modify (fun s => set_calls (calls s ++ [(lib, url)]) s);;
  t ← tick;
  mret (net w t lib url).

(** [tls_client]'s session is blocking: no suspension. *)
Definition fetch_tls (url : string) : Coro (option string) :=
  response ← request Tls url;
  match response with
  | Text body => mret (Some body)
  | TransportError msg => logger_error (TlsClientError msg);; mret None
  end.

Definition fetch_aiohttp (url : string) : Coro (option string) :=
  suspend;;
  response ← request Aiohttp url;
  match response with
  | Text body => mret (Some body)
  | TransportError msg => logger_error (AiohttpError msg);; mret None
  end.

Definition fetch_httpx (url : string) : Coro (option string) :=
  suspend;;
  response ← request Httpx url;
  match response with
  | Text body => mret (Some body)
  | TransportError msg => logger_error (HttpxError msg);; mret None
  end.

Definition fetch_method (lib : Strategy) : string -> Coro (option string) :=
  match lib with
  | Tls => fetch_tls
  | Aiohttp => fetch_aiohttp
  | Httpx => fetch_httpx
  end.

(** The list the [for] loop of [fetch] walks. *)
Definition fetch_methods : list Strategy := [Tls; Aiohttp; Httpx].

(** The [for] loop of [fetch] over the methods still to try. The value
    [Some body] of an iteration is its [return content]. *)
Fixpoint fetch_loop (methods : list Strategy) (url : string) : Coro string :=
  match methods with
  | [] => raise (Exception_ "All fetch methods failed")
  | lib :: rest =>
      returned ← try_except
        (content ← fetch_method lib url;
         match content with
         | Some body =>
             if nonempty body
             then logger_info (FetchedURL (last_segment url));; mret (Some body)
             else mret None
         | None => mret None
         end)
        (fun e => logger_error (FetchMethodFailed e);; mret None);
      match returned with
      | Some body => mret body
      | None => fetch_loop rest url
      end
  end.

Definition fetch (url : string) : Coro string :=
  logger_info (FetchingURL (last_segment url));;
  fetch_loop fetch_methods url.

End HTTPClient.

(** ** class CSVWriter *)

Record CSVWriter : Type := mkCSVWriter {
  filename : string;
  fieldnames : list string
}.

Section CSVWriter.
Context (w : World).

(** [open(path, mode)]: the one place where the disk can refuse. *)
Definition open_file (path : string) : Coro unit :=
  t ← tick;
  match open_error w t path with
  | Some msg => raise (OSError msg)
  | None => mret tt
  end.

Definition initialize_file (self : CSVWriter) : Coro unit :=
  s ← get;
  match fs s !! filename self with
  | Some _ => mret tt
  | None =>
      open_file (filename self);;
      modify (fun s => set_fs (<[filename self := [Header (fieldnames self)]]> (fs s)) s)
  end.

(** [CSVWriter(filename, fieldnames)] *)
Definition new_CSVWriter (filename : string) (fieldnames : list string) : Coro CSVWriter :=
  let self := mkCSVWriter filename fieldnames in
  initialize_file self;;
  mret self.

(** [DictWriter.writerow] refuses a dict with a key outside [fieldnames]. *)
Definition extra_keys (fieldnames : list string) : list string :=
  filter (fun k => k ∉ fieldnames) record_keys.

Definition save_row (self : CSVWriter) (data : JobRecord) : Coro unit :=
  open_file (filename self);;
  modify (fun s => set_fs (<[filename self := default [] (fs s !! filename self)]> (fs s)) s);;
  match extra_keys (fieldnames self) with
  | [] =>
      modify (fun s =>
        set_fs (<[filename self := default [] (fs s !! filename self) ++ [Row data]]> (fs s)) s)
  | _ => raise (ValueError "dict contains fields not in fieldnames")
  end.

End CSVWriter.

(** ** class ZipRecruiterScraper *)

Record ZipRecruiterScraper : Type := mkScraper {
  base_url : string;
  output_filename : string;
  csv_writer : CSVWriter
}.

Definition default_base_url : string := "https://www.ziprecruiter.in".

(** The field names [__init__] hands to its [CSVWriter]. *)
Definition csv_fieldnames : list string :=
  ["Domain"; "PostUrl"; "JobID"; "Title"; "City"; "State";
   "Speciality"; "JobType"; "JobDetails"; "Industry"; "Company";
   "PostedOn"; "SalaryFrom"; "SalaryUpto"; "PayoutTerm";
   "IsEstimatedSalary"; "ScrapedOn"].

(** [[i['href'] for i in links]] *)
Fixpoint hrefs (links : list (option string)) : Result (list string) :=
  match links with
  | [] => Ok []
  | None :: _ => Raise (KeyError "href")
  | Some h :: rest =>
      match hrefs rest with
      | Ok hs => Ok (h :: hs)
      | Raise e => Raise e
      end
  end.

Section Scraper.
Context (w : World) (recursion_limit : nat).

(** [ZipRecruiterScraper(base_url, output_filename)] *)
Definition new_ZipRecruiterScraper (base_url output_filename : string)
  : Coro ZipRecruiterScraper :=
  modify (set_job_links []);;
  writer ← new_CSVWriter w output_filename csv_fieldnames;
  mret (mkScraper base_url output_filename writer).

(** The first line is instrumentation: it notes the page asked for. *)
Definition get_page (self : ZipRecruiterScraper) (page_number : Z) (query : string)
  : Coro string :=
  modify (fun s => set_visited (visited s ++ [page_number]) s);;
  let url := base_url self +:+ "/jobs/search?" +:+ urlencode page_number query in
  fetch w url.

(** [self.soup_response(v).text.strip()]; only a string is markup. *)
Definition markup_text (v : json) : Result string :=
  match v with
  | JStr markup => Ok (py_strip (soup_text w markup))
  | _ => Raise (TypeError "markup is not a string")
  end.

Definition loads (text : string) : Result json :=
  match json_loads w text with
  | Some v => Ok v
  | None => Raise (JSONDecodeError "Expecting value")
  end.

Definition get_details (self : ZipRecruiterScraper) (url : string)
  : Coro (option JobRecord) :=
  logger_info (GettingDetails (last_segment url));;
  response ← fetch w url;
  try_except
    (let soup := detail_soup w response in
     let json_data := ld_json soup in
     let reference := job_posting_reference soup in
     let job_id :=
       match reference with
       | Some text => py_strip (py_replace "Reference:" "" text)
       | None => ""
       end in
     match json_data with
     | Some text =>
         data ← lift (loads text);
         description ← lift (d ← getitem data "description"; markup_text d);
         title ← lift (getitem data "title");
         city ← lift (getpath data ["jobLocation"; "address"; "addressLocality"]);
         state ← lift (getpath data ["jobLocation"; "address"; "addressRegion"]);
         job_type ← lift (getitem data "employmentType");
         company ← lift (getpath data ["hiringOrganization"; "name"]);
         posted_on ← lift (getitem data "datePosted");
         t ← tick;
         mret (Some {|
           Domain := "ZipRecruiter";
           PostUrl := url;
           JobID := "";
           Title := title;
           City := city;
           State_ := state;
           Speciality := "";
           JobType := job_type;
           JobDetails := description;
           Industry := "";
           Company := company;
           PostedOn := posted_on;
           SalaryFrom := "";
           SalaryUpto := "";
           PayoutTerm := "";
           IsEstimatedSalary := false;
           ScrapedOn := strftime_iso (now w t)
         |})
     | None => mret None
     end)
    (fun e =>
       logger_error (ErrorGettingDetails (last_segment url) e);;
       mret None).

(** [int(next_page_link.text)] *)
Definition int (text : string) : Result Z :=
  match (if is_ascii text then py_int text else int_of_unicode w text) with
  | Some n => Ok n
  | None => Raise (ValueError "invalid literal for int() with base 10")
  end.

(** The [except] clause of [get_links]. [response] is the local variable
    of that name: [None] while no assignment to it has completed. *)
Definition get_links_except (page_number : Z) (response : option string) (e : PyExc)
  : Coro unit :=
  logger_error (ErrorParsingPage page_number e);;
  match response with
  | None => raise (UnboundLocalError "response")
  | Some text =>
      if nonempty text
      then logger_error (ResponseContent (take_string 500 text))
      else mret tt
  end.

(** The closure [get_links] of [load_links]. The first statement of its
    [try] block assigns [response]: if the right-hand side raises, the
    handler runs with [response] unbound, otherwise with [response]
    bound for the rest of the block. [depth] counts the nested
    [get_links] frames the interpreter still allows: a call beyond the
    recursion limit raises [RecursionError] in the caller. *)
Fixpoint get_links (self : ZipRecruiterScraper) (query : string)
    (depth : nat) (page_number : Z) : Coro unit :=
  match depth with
  | O => raise RecursionError
  | S depth' =>
      (* response = await self.get_page(page_number, query) *)
      assigned ← attempt (get_page self page_number query);
      match assigned with
      | Raise e => get_links_except page_number None e
      | Ok response =>
          try_except
            (if nonempty response then
               let soup := listing_soup w response in
               let next_page_link := next_page_link soup in
               let links := jobList_title soup in
               match links with
               | [] => logger_warning (NoLinksFound page_number)
               | _ =>
                   found ← lift (hrefs links);
                   modify (fun s => set_job_links (job_links s ++ found) s);;
                   logger_info (FoundLinks (length links) page_number)
               end;;
               match next_page_link with
               | Some text =>
                   next_page ← lift (int text);
                   get_links self query depth' next_page
               | None => logger_info NoMorePages
               end
             else logger_error (NoResponse page_number))
            (get_links_except page_number (Some response))
      end
  end.

(** [load_links] returns [self.job_links] itself; its caller reads the
    list before anything writes to it again. *)
Definition load_links (self : ZipRecruiterScraper) (query : string)
  : Coro (list string) :=
  logger_info StartingToLoad;;
  get_links self query recursion_limit 1;;
  s ← get;
  logger_info (TotalLinksFound (length (job_links s)));;
  mret (job_links s).

Definition process_link (self : ZipRecruiterScraper) (link : string) : Coro unit :=
  details ← get_details self link;
  match details with
  | Some data =>
      logger_info (SuccessfullyScraped (Title data));;
      save_row w (csv_writer self) data
  | None => logger_warning (NoDataFound link)
  end.

End Scraper.

(** ** config.py *)

Record Config : Type := mkConfig {
  SKILLS : list string;
  OUTPUTFILE : string
}.

(** The class body of [Config], evaluated when the module is imported. *)
Definition config_at (today : DateTime) : Config :=
  {| SKILLS := ["aws"; "python"];
     OUTPUTFILE := "ziprecruiter_" +:+ strftime_dmy today +:+ ".csv" |}.

(** ** The event loop *)

(** A task of the loop: suspended with what it will do when resumed, or
    finished. *)
Inductive Slot : Type :=
| Suspended (k : Coro unit)
| Finished.

(** Which suspended task the loop resumes next: one left over from an
    earlier [gather] or a child of the current one. *)
Inductive Pick : Type :=
| Orphan (i : nat)
| Child (i : nat).

(** [st] is the program state, [orphans] the tasks of earlier gathers
    that were still pending when their gather raised, [schedule] the
    order in which I/O completes: each time the main coroutine is
    suspended the loop takes the next list of picks. *)
Record Loop : Type := mkLoop {
  st : State;
  orphans : list Slot;
  schedule : list (list Pick)
}.

Definition LoopM (A : Type) : Type := Loop -> Loop * Result A.

#[export] Instance loop_mret : MRet LoopM := fun A a l => (l, Ok a).
#[export] Instance loop_mbind : MBind LoopM := fun A B f m l =>
  match m l with
  | (l', Ok a) => f a l'
  | (l', Raise e) => (l', Raise e)
  end.

(** [try: m  except Exception as e: h e] in the main coroutine. *)
Definition try_except_main {A : Type} (m : LoopM A) (h : PyExc -> LoopM A) : LoopM A :=
  fun l =>
    match m l with
    | (l', Ok a) => (l', Ok a)
    | (l', Raise e) => h e l'
    end.

(** [for x in xs: body x] *)
Fixpoint for_each {X : Type} (xs : list X) (body : X -> LoopM unit) : LoopM unit :=
  match xs with
  | [] => mret tt
  | x :: rest => body x;; for_each rest body
  end.

(** Resume a task for one segment. An exception it ends with is handed
    back to whoever watches the task. *)
Definition resume (t : Slot) (s : State) : State * Slot * option PyExc :=
  match t with
  | Finished => (s, Finished, None)
  | Suspended k =>
      match segment k s with
      | (s', inl (Ok _)) => (s', Finished, None)
      | (s', inl (Raise e)) => (s', Finished, Some e)
      | (s', inr k') => (s', Suspended k', None)
      end
  end.

Definition resume_at (i : nat) (tasks : list Slot) (s : State)
  : State * list Slot * option PyExc :=
  match tasks !! i with
  | Some t => let '(s', t', e) := resume t s in (s', <[i := t']> tasks, e)
  | None => (s, tasks, None)
  end.

(** The first exception wins; later ones are dropped. *)
Definition first_exc (e1 e2 : option PyExc) : option PyExc :=
  match e1 with
  | Some e => Some e
  | None => e2
  end.

(** The loop resumes tasks as the picks say. Nobody watches an orphan:
    its exception is lost. *)
Fixpoint interleave (picks : list Pick) (s : State) (orphans children : list Slot)
    (raised : option PyExc) : State * list Slot * list Slot * option PyExc :=
  match picks with
  | [] => (s, orphans, children, raised)
  | Orphan i :: rest =>
      let '(s', orphans', _) := resume_at i orphans s in
      interleave rest s' orphans' children raised
  | Child i :: rest =>
      let '(s', children', e) := resume_at i children s in
      interleave rest s' orphans children' (first_exc raised e)
  end.

Definition next_picks (l : Loop) : list Pick * list (list Pick) :=
  match schedule l with
  | [] => ([], [])
  | picks :: rest => (picks, rest)
  end.

(** The main coroutine is suspended on its own I/O: the loop runs what
    else is ready. *)
Definition yield_to_loop (l : Loop) : Loop :=
  let (picks, rest) := next_picks l in
  let '(s, orphans', _, _) := interleave picks (st l) (orphans l) [] None in
  mkLoop s orphans' rest.

(** [await m] in the main coroutine. *)
Fixpoint await {A : Type} (m : Coro A) : LoopM A :=
  match m with
  | Ret r => fun l => (l, r)
  | Read k => fun l => await (k (st l)) l
  | Write s k => fun l => await k (mkLoop s (orphans l) (schedule l))
  | Await k => fun l => await k (yield_to_loop l)
  end.

(** [create_task] queues the first step of every child with [call_soon]:
    the children start in the order of the argument list. *)
Fixpoint start_all (tasks : list (Coro unit)) (s : State)
  : State * list Slot * option PyExc :=
  match tasks with
  | [] => (s, [], None)
  | task :: rest =>
      let '(s1, t, e1) := resume (Suspended task) s in
      let '(s2, ts, e2) := start_all rest s1 in
      (s2, t :: ts, first_exc e1 e2)
  end.

(** When the schedule says nothing more, the children still pending
    complete one after the other, up to the first that raises. *)
Fixpoint finish_all (children : list Slot) (s : State)
  : State * list Slot * option PyExc :=
  match children with
  | [] => (s, [], None)
  | Finished :: rest =>
      let '(s', rest', e) := finish_all rest s in
      (s', Finished :: rest', e)
  | Suspended k :: rest =>
      match exec k s with
      | (s', Ok _) =>
          let '(s'', rest', e) := finish_all rest s' in
          (s'', Finished :: rest', e)
      | (s', Raise e) => (s', Finished :: rest, Some e)
      end
  end.

Fixpoint pending (tasks : list Slot) : list Slot :=
  match tasks with
  | [] => []
  | Suspended k :: rest => Suspended k :: pending rest
  | Finished :: rest => pending rest
  end.

(** Awaiting [asyncio.gather] over the tasks, [return_exceptions] left at
    [False]: the
    first exception raised by a child is raised in the awaiting
    coroutine; the other children are not cancelled and stay with the
    loop. *)
Definition gather (tasks : list (Coro unit)) : LoopM unit := fun l =>
  let l0 := yield_to_loop l in
  let '(s1, children1, e1) := start_all tasks (st l0) in
  let (picks, rest) := next_picks l0 in
  let '(s2, orphans2, children2, e2) :=
    interleave picks s1 (orphans l0) children1 e1 in
  match e2 with
  | Some e => (mkLoop s2 (orphans2 ++ pending children2) rest, Raise e)
  | None =>
      let '(s3, children3, e3) := finish_all children2 s2 in
      (mkLoop s3 (orphans2 ++ pending children3) rest,
       match e3 with
       | Some e => Raise e
       | None => Ok tt
       end)
  end.

Section Main.
Context (w : World) (recursion_limit : nat) (cfg : Config).

(** The [try] block that [run] executes for one query. *)
Definition run_try (self : ZipRecruiterScraper) (query : string) : LoopM unit :=
  links ← await (load_links w recursion_limit self query);
  match links with
  | [] => await (logger_error (NoLinksToProcess query))
  | _ =>
      await (logger_info (ProcessingLinks (length links) query));;
      gather (map (process_link w self) links)
  end.

(** The [try] statement that [run] executes for one query. *)
Definition run_query (self : ZipRecruiterScraper) (query : string) : LoopM unit :=
  try_except_main (run_try self query)
    (fun e => await (logger_error (ErrorInRun query e))).

Definition run (self : ZipRecruiterScraper) : LoopM unit :=
  await (logger_info StartingScraping);;
  for_each (SKILLS cfg) (run_query self).

Definition main : LoopM unit :=
  try_except_main
    (scraper ← await (new_ZipRecruiterScraper w default_base_url (OUTPUTFILE cfg));
     run scraper)
    (fun e => await (logger_error (MainExecutionError e))).

End Main.

(** A fresh process: nothing logged, an empty disk, no task pending. *)
Definition initial_state : State := mkState 0 [] ∅ [] [] [].
Definition initial_loop (schedule : list (list Pick)) : Loop :=
  mkLoop initial_state [] schedule.

(** ** Vocabulary of the statements *)

(** A library answer that makes [fetch] go on to the next library: an
    exception inside the library, or an empty body. *)
Definition barren (r : Response) : bool :=
  match r with
  | Text body => negb (nonempty body)
  | TransportError _ => true
  end.

(** The error line a library's wrapper logs for its own failure. *)
Definition transport_error (lib : Strategy) (msg : string) : Message :=
  match lib with
  | Tls => TlsClientError msg
  | Aiohttp => AiohttpError msg
  | Httpx => HttpxError msg
  end.

(** The state once [lib] has been called on [url]. *)
Definition called (lib : Strategy) (url : string) (s : State) : State :=
  set_clock (S (clock s)) (set_calls (calls s ++ [(lib, url)]) s).

(** The state once a line has been logged. *)
Definition logged (lvl : Level) (m : Message) (s : State) : State :=
  set_log (log s ++ [(lvl, m)]) s.

(** The error lines logged when [methods] are tried from time [t] on and
    none of them yields a body. *)
Fixpoint failures (w : World) (url : string) (t : nat) (methods : list Strategy)
  : list (Level * Message) :=
  match methods with
  | [] => []
  | lib :: rest =>
      match net w t lib url with
      | TransportError msg => [(ERROR, transport_error lib msg)]
      | Text _ => []
      end ++ failures w url (S t) rest
  end.

Definition page_url (self : ZipRecruiterScraper) (page_number : Z) (query : string)
  : string :=
  base_url self +:+ "/jobs/search?" +:+ urlencode page_number query.

(** The state once [get_page] has been asked for a page. *)
Definition asked (page_number : Z) (s : State) : State :=
  set_visited (visited s ++ [page_number]) s.

(** The state once [get_links] has dealt with the links of a page. *)
Definition links_block (page_number : Z) (links : list (option string))
    (found : list string) (s : State) : State :=
  match links with
  | [] => logged WARNING (NoLinksFound page_number) s
  | _ =>
      logged INFO (FoundLinks (length links) page_number)
        (set_job_links (job_links s ++ found) s)
  end.

(** What a client of the sink can do with one output path. *)
Inductive SinkOp : Type :=
| Construct (fieldnames : list string)
| SaveRow (fieldnames : list string) (data : JobRecord).

Definition sink_op (w : World) (path : string) (op : SinkOp) : Coro unit :=
  match op with
  | Construct fields => new_CSVWriter w path fields;; mret tt
  | SaveRow fields data => save_row w (mkCSVWriter path fields) data
  end.

(** A sequence of sink operations, each attempted whatever became of the
    one before. *)
Fixpoint sink_ops (w : World) (path : string) (ops : list SinkOp) : Coro unit :=
  match ops with
  | [] => mret tt
  | op :: rest => attempt (sink_op w path op);; sink_ops w path rest
  end.

Definition header_then_rows (path : string) (fields : list string) (s : State) : Prop :=
  ∃ rows, fs s !! path = Some (Header fields :: map Row rows).

(** The rows of a file, headers left out. *)
Fixpoint rows_of (content : list CsvLine) : list JobRecord :=
  match content with
  | [] => []
  | Header _ :: rest => rows_of rest
  | Row data :: rest => data :: rows_of rest
  end.

(** Log lines that report an [OSError]. *)
Definition reports_os_error (entry : Level * Message) : bool :=
  match entry.2 with
  | ErrorInRun _ (OSError _) => true
  | ErrorGettingDetails _ (OSError _) => true
  | ErrorParsingPage _ (OSError _) => true
  | FetchMethodFailed (OSError _) => true
  | MainExecutionError (OSError _) => true
  | _ => false
  end.

(** Log lines that name a link as yielding no data. *)
Definition reports_no_data (entry : Level * Message) : bool :=
  match entry.2 with
  | NoDataFound _ => true
  | ErrorGettingDetails _ _ => true
  | _ => false
  end.

(** The links a listing page adds to the link list when it is asked for
    in state [s]: the [href]s of all job anchors of the body served;
    none when the page cannot be fetched or one of its job anchors has
    no [href]. *)
Definition page_links (w : World) (self : ZipRecruiterScraper) (query : string)
    (page_number : Z) (s : State) : list string :=
  match exec (get_page w self page_number query) s with
  | (_, Ok response) =>
      match hrefs (jobList_title (listing_soup w response)) with
      | Ok found => found
      | Raise _ => []
      end
  | (_, Raise _) => []
  end.

(** The walk read off the world: the pages a walk asks for, in order,
    each with the links it adds to the link list. A page that cannot be
    fetched, or one of whose job anchors has no [href], adds none and is
    the last; so is a page without a next-page token or with one that
    does not read as an integer. *)
Fixpoint crawl (w : World) (self : ZipRecruiterScraper) (query : string)
    (depth : nat) (page_number : Z) (s : State) : list (Z * list string) :=
  match depth with
  | O => []
  | S depth' =>
      match exec (get_page w self page_number query) s with
      | (_, Raise _) => [(page_number, [])]
      | (s1, Ok response) =>
          let soup := listing_soup w response in
          match hrefs (jobList_title soup) with
          | Raise _ => [(page_number, [])]
          | Ok found =>
              (page_number, found)
              :: match next_page_link soup with
                 | None => []
                 | Some text =>
                     match int w text with
                     | Ok n =>
                         crawl w self query depth' n
                           (links_block page_number (jobList_title soup) found s1)
                     | Raise _ => []
                     end
                 end
          end
      end
  end.

(** A site whose next-page tokens point forward: whenever a listing page
    is served for a page number, its token, if it reads as an integer,
    reads as a greater one. *)
Definition tokens_ascend (w : World) (self : ZipRecruiterScraper) (query : string)
  : Prop :=
  ∀ t lib page_number body text n,
    net w t lib (page_url self page_number query) = Text body →
    next_page_link (listing_soup w body) = Some text →
    int w text = Ok n →
    page_number < n.

(** ** Example sites *)

Definition posting (title company : string) : json :=
  JObj [("title", JStr title);
        ("description", JStr "<p>Build things</p>");
        ("jobLocation",
           JObj [("address",
                    JObj [("addressLocality", JStr "Pune");
                          ("addressRegion", JStr "MH")])]);
        ("employmentType", JStr "FULL_TIME");
        ("hiringOrganization", JObj [("name", JStr company)]);
        ("datePosted", JStr "2024-01-01")].

Definition listing_url (page query : string) : string :=
  "https://www.ziprecruiter.in/jobs/search?page=" +:+ page +:+ "&q=" +:+ query.

Definition demo_detail_soup (body : string) : DetailSoup :=
  if String.eqb body "<a>" then mkDetailSoup (Some "{a}") None
  else if String.eqb body "<b>" then mkDetailSoup (Some "{b}") (Some "Reference: 7")
  else mkDetailSoup None None.

Definition demo_json_loads (text : string) : option json :=
  if String.eqb text "{a}" then Some (posting "Cloud engineer" "Acme")
  else if String.eqb text "{b}" then Some (posting "Python developer" "Initech")
  else None.

(** The text of the one description the example postings have. *)
Definition demo_soup_text (markup : string) : string :=
  if String.eqb markup "<p>Build things</p>" then "Build things" else markup.

Definition demo_now (t : nat) : DateTime := mkDateTime 2024 1 2 3 4 t.
Definition today : DateTime := mkDateTime 2024 1 2 0 0 0.

(** Both listing pages and both postings are served at the first try. *)
Definition serve_all (lib : Strategy) (url : string) : Response :=
  match lib with
  | Tls =>
      if String.eqb url (listing_url "1" "aws") then Text "<aws 1>"
      else if String.eqb url (listing_url "1" "python") then Text "<python 1>"
      else if String.eqb url "/jobs/a" then Text "<a>"
      else if String.eqb url "/jobs/b" then Text "<b>"
      else TransportError "refused"
  | _ => TransportError "refused"
  end.

(** "aws" lists posting a, "python" lists posting b. *)
Definition healthy : World := {|
  net := fun _ => serve_all;
  listing_soup := fun body =>
    if String.eqb body "<aws 1>" then mkListing None [Some "/jobs/a"]
    else if String.eqb body "<python 1>" then mkListing None [Some "/jobs/b"]
    else mkListing None [];
  detail_soup := demo_detail_soup;
  json_loads := demo_json_loads;
  soup_text := demo_soup_text;
  now := demo_now;
  open_error := fun _ _ => None;
  int_of_unicode := fun _ => None
|}.

(** "aws" lists nothing, "python" lists both postings; once the header
    is written every [open] fails. *)
Definition full_disk : World := {|
  net := fun _ => serve_all;
  listing_soup := fun body =>
    if String.eqb body "<python 1>" then mkListing None [Some "/jobs/a"; Some "/jobs/b"]
    else mkListing None [];
  detail_soup := demo_detail_soup;
  json_loads := demo_json_loads;
  soup_text := demo_soup_text;
  now := demo_now;
  open_error := fun t _ => if (t =? 0)%nat then None else Some "No space left on device";
  int_of_unicode := fun _ => None
|}.

(** "aws" lists nothing, "python" lists both postings. Posting a is
    refused by every library, posting b is served by aiohttp only,
    posting c times out everywhere. *)
Definition flaky : World := {|
  net := fun _ lib url =>
    if String.eqb url (listing_url "1" "aws") then
      match lib with Tls => Text "<aws 1>" | _ => TransportError "refused" end
    else if String.eqb url (listing_url "1" "python") then
      match lib with Tls => Text "<python 1>" | _ => TransportError "refused" end
    else if String.eqb url "/jobs/b" then
      match lib with Aiohttp => Text "<b>" | _ => TransportError "timed out" end
    else if String.eqb url "/jobs/c" then TransportError "timed out"
    else TransportError "refused";
  listing_soup := fun body =>
    if String.eqb body "<python 1>" then mkListing None [Some "/jobs/a"; Some "/jobs/b"]
    else mkListing None [];
  detail_soup := demo_detail_soup;
  json_loads := demo_json_loads;
  soup_text := demo_soup_text;
  now := demo_now;
  open_error := fun _ _ => None;
  int_of_unicode := fun _ => None
|}.

(** Page 1 points to page 2 and page 2 back to page 1; when page 1 is
    loaded again its next link is gone. *)
Definition backward : World := {|
  net := fun t lib url =>
    match lib with
    | Tls =>
        if String.eqb url (listing_url "1" "aws")
        then Text (if (t <? 2)%nat then "<aws 1>" else "<aws 1 again>")
        else if String.eqb url (listing_url "2" "aws") then Text "<aws 2>"
        else TransportError "refused"
    | _ => TransportError "refused"
    end;
  listing_soup := fun body =>
    if String.eqb body "<aws 1>" then mkListing (Some "2") [Some "/jobs/a"]
    else if String.eqb body "<aws 2>" then mkListing (Some "1") [Some "/jobs/b"]
    else mkListing None [];
  detail_soup := demo_detail_soup;
  json_loads := demo_json_loads;
  soup_text := demo_soup_text;
  now := demo_now;
  open_error := fun _ _ => None;
  int_of_unicode := fun _ => None
|}.

(** Posting a is listed on page 1 and again on page 2. *)
Definition repeating : World := {|
  net := fun _ lib url =>
    match lib with
    | Tls =>
        if String.eqb url (listing_url "1" "aws") then Text "<aws 1>"
        else if String.eqb url (listing_url "2" "aws") then Text "<aws 2>"
        else TransportError "refused"
    | _ => TransportError "refused"
    end;
  listing_soup := fun body =>
    if String.eqb body "<aws 1>" then mkListing (Some "2") [Some "/jobs/a"]
    else if String.eqb body "<aws 2>" then mkListing None [Some "/jobs/a"]
    else mkListing None [];
  detail_soup := demo_detail_soup;
  json_loads := demo_json_loads;
  soup_text := demo_soup_text;
  now := demo_now;
  open_error := fun _ _ => None;
  int_of_unicode := fun _ => None
|}.

(** "aws" lists nothing, "python" lists postings a and b. Posting a is
    served by tls, posting b by aiohttp only. The disk is a parameter. *)
Definition late_answer (disk : nat -> string -> option string) : World := {|
  net := fun _ lib url =>
    match lib with
    | Tls =>
        if String.eqb url (listing_url "1" "aws") then Text "<aws 1>"
        else if String.eqb url (listing_url "1" "python") then Text "<python 1>"
        else if String.eqb url "/jobs/a" then Text "<a>"
        else TransportError "timed out"
    | Aiohttp =>
        if String.eqb url "/jobs/b" then Text "<b>" else TransportError "refused"
    | Httpx => TransportError "refused"
    end;
  listing_soup := fun body =>
    if String.eqb body "<python 1>" then mkListing None [Some "/jobs/a"; Some "/jobs/b"]
    else mkListing None [];
  detail_soup := demo_detail_soup;
  json_loads := demo_json_loads;
  soup_text := demo_soup_text;
  now := demo_now;
  open_error := disk;
  int_of_unicode := fun _ => None
|}.

(** A disk that refuses the sixth [open] or clock reading of the run,
    and a disk that never refuses. *)
Definition one_bad_write (t : nat) (path : string) : option string :=
  if (t =? 5)%nat then Some "Input/output error" else None.
Definition good_disk (t : nat) (path : string) : option string := None.

(** Posting c has an ld+json block that parses and has no title. *)
Definition untitled : World := {|
  net := fun _ lib url =>
    match lib with
    | Tls => if String.eqb url "/jobs/c" then Text "<c>" else TransportError "refused"
    | _ => TransportError "refused"
    end;
  listing_soup := fun _ => mkListing None [];
  detail_soup := fun body =>
    if String.eqb body "<c>" then mkDetailSoup (Some "{c}") None
    else mkDetailSoup None None;
  json_loads := fun text =>
    if String.eqb text "{c}"
    then Some (JObj [("description", JStr "<p>Build things</p>");
                     ("hiringOrganization", JObj [("name", JStr "Acme")])])
    else None;
  soup_text := demo_soup_text;
  now := demo_now;
  open_error := fun _ _ => None;
  int_of_unicode := fun _ => None
|}.

Definition demo_scraper : ZipRecruiterScraper :=
  mkScraper default_base_url "jobs.csv" (mkCSVWriter "jobs.csv" csv_fieldnames).

(** The content of the output file of a finished run. *)
Definition output (cfg : Config) (s : State) : list CsvLine :=
  default [] (fs s !! OUTPUTFILE cfg).

(** * Properties *)

(** ** The sequential meaning of the monad operations *)

Lemma exec_bind {A B : Type} (m : Coro A) (f : A -> Coro B) (s : State) :
  exec (m ≫= f) s =
  match exec m s with
  | (s', Ok a) => exec (f a) s'
  | (s', Raise e) => (s', Raise e)
  end.
Proof.
  revert s. induction m as [[a|e]|k IH|s' k IH|k IH]; intros s; simpl; auto.
Qed.

Lemma exec_try_except {A : Type} (m : Coro A) (h : PyExc -> Coro A) (s : State) :
  exec (try_except m h) s =
  match exec m s with
  | (s', Ok a) => (s', Ok a)
  | (s', Raise e) => exec (h e) s'
  end.
Proof.
  revert s. induction m as [[a|e]|k IH|s' k IH|k IH]; intros s; simpl; auto.
Qed.

Lemma exec_attempt {A : Type} (m : Coro A) (s : State) :
  exec (attempt m) s = let (s', r) := exec m s in (s', Ok r).
Proof.
  revert s. induction m as [r|k IH|s' k IH|k IH]; intros s; simpl; auto.
Qed.

Lemma exec_logger (lvl : Level) (m : Message) (s : State) :
  exec (logger lvl m) s = (logged lvl m s, Ok tt).
Proof. reflexivity. Qed.

Lemma exec_logger_info (m : Message) (s : State) :
  exec (logger_info m) s = (logged INFO m s, Ok tt).
Proof. reflexivity. Qed.

Lemma exec_logger_warning (m : Message) (s : State) :
  exec (logger_warning m) s = (logged WARNING m s, Ok tt).
Proof. reflexivity. Qed.

Lemma exec_logger_error (m : Message) (s : State) :
  exec (logger_error m) s = (logged ERROR m s, Ok tt).
Proof. reflexivity. Qed.

Lemma exec_modify (f : State -> State) (s : State) : exec (modify f) s = (f s, Ok tt).
Proof. reflexivity. Qed.

Lemma exec_lift {A : Type} (r : Result A) (s : State) : exec (lift r) s = (s, r).
Proof. reflexivity. Qed.

Lemma exec_mret {A : Type} (a : A) (s : State) : exec (mret a) s = (s, Ok a).
Proof. reflexivity. Qed.

Lemma exec_get (s : State) : exec get s = (s, Ok s).
Proof. reflexivity. Qed.

Lemma exec_tick (s : State) : exec tick s = (set_clock (S (clock s)) s, Ok (clock s)).
Proof. reflexivity. Qed.

(** ** HTTPClient.fetch *)

Section FetchFacts.
Context (w : World) (url : string).

Lemma exec_fetch_method (lib : Strategy) (s : State) :
  exec (fetch_method w lib url) s =
  match net w (clock s) lib url with
  | Text body => (called lib url s, Ok (Some body))
  | TransportError msg =>
      (logged ERROR (transport_error lib msg) (called lib url s), Ok None)
  end.
Proof. destruct lib; cbn; destruct (net w (clock s) _ url); reflexivity. Qed.

(** One turn of the loop: return, or go on with the remaining methods. *)
Lemma exec_fetch_loop_cons (lib : Strategy) (rest : list Strategy) (s : State) :
  exec (fetch_loop w (lib :: rest) url) s =
  match net w (clock s) lib url with
  | Text body =>
      if nonempty body
      then (logged INFO (FetchedURL (last_segment url)) (called lib url s), Ok body)
      else exec (fetch_loop w rest url) (called lib url s)
  | TransportError msg =>
      exec (fetch_loop w rest url)
        (logged ERROR (transport_error lib msg) (called lib url s))
  end.
Proof.
  cbn [fetch_loop]. rewrite exec_bind, exec_try_except, exec_bind, exec_fetch_method.
  destruct (net w (clock s) lib url) as [body|msg]; [destruct body|]; reflexivity.
Qed.

Lemma fetch_loop_first_nonempty (before : list Strategy) :
  ∀ (lib : Strategy) (after : list Strategy) (body : string) (s : State),
  (∀ i lib', before !! i = Some lib' → barren (net w (clock s + i) lib' url) = true) →
  net w (clock s + length before) lib url = Text body →
  body ≠ "" →
  ∃ s', exec (fetch_loop w (before ++ lib :: after) url) s = (s', Ok body)
        ∧ calls s' = calls s ++ map (λ l, (l, url)) (before ++ [lib]).
Proof.
  induction before as [|b before IH]; intros lib after body s Hbar Hhit Hne.
  - cbn [app length] in *. rewrite Nat.add_0_r in Hhit.
    rewrite exec_fetch_loop_cons, Hhit.
    destruct body as [|c body]; [congruence|].
    eexists; split; reflexivity.
  - cbn [app length] in *. rewrite exec_fetch_loop_cons.
    pose proof (Hbar 0%nat b eq_refl) as Hb. rewrite Nat.add_0_r in Hb.
    assert (Hshift : ∀ s1, clock s1 = S (clock s) →
      (∀ i lib', before !! i = Some lib' → barren (net w (clock s1 + i) lib' url) = true)
      ∧ net w (clock s1 + length before) lib url = Text body).
    { intros s1 Hs1. rewrite Hs1. split.
      - intros i lib' Hi.
        replace (S (clock s) + i)%nat with (clock s + S i)%nat by lia.
        apply Hbar. exact Hi.
      - replace (S (clock s) + length before)%nat
          with (clock s + S (length before))%nat by lia.
        exact Hhit. }
    destruct (net w (clock s) b url) as [body0|msg] eqn:Hnet.
    + cbn in Hb. destruct (nonempty body0); [discriminate|].
      destruct (Hshift (called b url s) eq_refl) as [H1 H2].
      destruct (IH lib after body (called b url s) H1 H2 Hne) as (s' & He & Hc).
      exists s'. split; [exact He|]. rewrite Hc. cbn. rewrite <- app_assoc. reflexivity.
    + destruct (Hshift (logged ERROR (transport_error b msg) (called b url s)) eq_refl)
        as [H1 H2].
      destruct (IH lib after body _ H1 H2 Hne) as (s' & He & Hc).
      exists s'. split; [exact He|]. rewrite Hc. cbn. rewrite <- app_assoc. reflexivity.
Qed.

Lemma fetch_loop_exhausted (methods : list Strategy) : ∀ s : State,
  (∀ i lib, methods !! i = Some lib → barren (net w (clock s + i) lib url) = true) →
  ∃ s', exec (fetch_loop w methods url) s
          = (s', Raise (Exception_ "All fetch methods failed"))
        ∧ calls s' = calls s ++ map (λ l, (l, url)) methods
        ∧ log s' = log s ++ failures w url (clock s) methods.
Proof.
  induction methods as [|b methods IH]; intros s Hbar.
  - cbn. eexists; split; [reflexivity|]. rewrite !app_nil_r. split; reflexivity.
  - rewrite exec_fetch_loop_cons.
    pose proof (Hbar 0%nat b eq_refl) as Hb. rewrite Nat.add_0_r in Hb.
    assert (Hshift : ∀ s1, clock s1 = S (clock s) →
      ∀ i lib, methods !! i = Some lib → barren (net w (clock s1 + i) lib url) = true).
    { intros s1 Hs1 i lib Hi. rewrite Hs1.
      replace (S (clock s) + i)%nat with (clock s + S i)%nat by lia.
      apply Hbar. exact Hi. }
    cbn [failures].
    destruct (net w (clock s) b url) as [body0|msg] eqn:Hnet.
    + cbn in Hb. destruct (nonempty body0); [discriminate|].
      destruct (IH (called b url s) (Hshift (called b url s) eq_refl))
        as (s' & He & Hc & Hl).
      exists s'. split; [exact He|]. rewrite Hc, Hl. cbn. rewrite <- app_assoc.
      split; reflexivity.
    + destruct (IH (logged ERROR (transport_error b msg) (called b url s))
                  (Hshift (logged ERROR (transport_error b msg) (called b url s)) eq_refl))
        as (s' & He & Hc & Hl).
      exists s'. split; [exact He|]. rewrite Hc, Hl. cbn. rewrite <- !app_assoc.
      split; reflexivity.
Qed.

(** The loop touches neither the link list, nor the visit record, nor
    the disk. *)
Lemma exec_fetch_loop_frame (methods : list Strategy) : ∀ s : State,
  let s' := (exec (fetch_loop w methods url) s).1 in
  job_links s' = job_links s ∧ visited s' = visited s ∧ fs s' = fs s.
Proof.
  induction methods as [|b methods IH]; intros s; [cbn; auto|].
  cbn zeta. rewrite exec_fetch_loop_cons.
  destruct (net w (clock s) b url) as [body|msg].
  - destruct (nonempty body); [cbn; auto|]. exact (IH (called b url s)).
  - exact (IH (logged ERROR (transport_error b msg) (called b url s))).
Qed.

(** What the loop returns is never the empty string. *)
Lemma exec_fetch_loop_nonempty (methods : list Strategy) : ∀ (s s' : State) (body : string),
  exec (fetch_loop w methods url) s = (s', Ok body) → nonempty body = true.
Proof.
  induction methods as [|b methods IH]; intros s s' body; [cbn; congruence|].
  rewrite exec_fetch_loop_cons.
  destruct (net w (clock s) b url) as [body0|msg].
  - destruct (nonempty body0) eqn:Hn; [|apply IH]. intros [= _ <-]. exact Hn.
  - apply IH.
Qed.

Lemma exec_fetch (s : State) :
  exec (fetch w url) s =
  exec (fetch_loop w fetch_methods url) (logged INFO (FetchingURL (last_segment url)) s).
Proof. reflexivity. Qed.

Lemma exec_fetch_frame (s : State) :
  let s' := (exec (fetch w url) s).1 in
  job_links s' = job_links s ∧ visited s' = visited s ∧ fs s' = fs s.
Proof.
  cbn zeta. rewrite exec_fetch.
  apply (exec_fetch_loop_frame fetch_methods (logged INFO (FetchingURL (last_segment url)) s)).
Qed.

End FetchFacts.

(** C1. Whatever the request and whatever the ordered list of libraries
    the loop of [fetch] walks, the loop returns the body of the first
    library in that order that yields a non-empty body, and the
    libraries called for the request are exactly those up to and
    including that one: none after it is invoked. For [fetch] itself the
    list is tls, aiohttp, httpx. *)
Theorem fetch_returns_first_nonempty_body (w : World) (url : string) (s : State)
    (methods before after : list Strategy) (lib : Strategy) (body : string) :
  methods = before ++ lib :: after →
  (∀ i lib', before !! i = Some lib' → barren (net w (clock s + i) lib' url) = true) →
  net w (clock s + length before) lib url = Text body →
  body ≠ "" →
  ((exec (fetch_loop w methods url) s).2 = Ok body
   ∧ calls (exec (fetch_loop w methods url) s).1
     = calls s ++ map (λ l, (l, url)) (before ++ [lib]))
  ∧ (methods = fetch_methods →
     (exec (fetch w url) s).2 = Ok body
     ∧ calls (exec (fetch w url) s).1 = calls s ++ map (λ l, (l, url)) (before ++ [lib])).
Proof.
  intros Hsplit Hbar Hhit Hne. split.
  - rewrite Hsplit.
    destruct (fetch_loop_first_nonempty w url before lib after body s Hbar Hhit Hne)
      as (s' & He & Hc).
    rewrite He. split; [reflexivity|exact Hc].
  - intros Hm. rewrite exec_fetch, <- Hm, Hsplit.
    destruct (fetch_loop_first_nonempty w url before lib after body
                (logged INFO (FetchingURL (last_segment url)) s) Hbar Hhit Hne)
      as (s' & He & Hc).
    rewrite He. split; [reflexivity|exact Hc].
Qed.

Lemma fetch_returns_first_nonempty_body_witness :
  (exec (fetch flaky "/jobs/b") initial_state).2 = Ok "<b>"
  ∧ calls (exec (fetch flaky "/jobs/b") initial_state).1
    = [(Tls, "/jobs/b"); (Aiohttp, "/jobs/b")].
Proof.
  refine (proj2 (fetch_returns_first_nonempty_body flaky "/jobs/b" initial_state
                   fetch_methods [Tls] [Httpx] Aiohttp "<b>" _ _ _ _) eq_refl).
  - reflexivity.
  - intros [|i] lib' H; [injection H as <-; reflexivity|discriminate H].
  - reflexivity.
  - discriminate.
Defined.

(** C4, as the code has it. When every library fails or returns an empty
    body, [fetch] raises a plain [Exception] whose only content is the
    fixed text "All fetch methods failed" and returns no body; every
    library has been called once, and the failures of the libraries are
    in the log, one error line per library that raised, not in the
    exception. *)
Theorem fetch_exhausted_raises_fixed_error (w : World) (url : string) (s : State) :
  (∀ i lib, fetch_methods !! i = Some lib → barren (net w (clock s + i) lib url) = true) →
  (exec (fetch w url) s).2 = Raise (Exception_ "All fetch methods failed")
  ∧ calls (exec (fetch w url) s).1 = calls s ++ map (λ l, (l, url)) fetch_methods
  ∧ log (exec (fetch w url) s).1
    = log s ++ (INFO, FetchingURL (last_segment url))
        :: failures w url (clock s) fetch_methods.
Proof.
  intros Hbar. rewrite exec_fetch.
  destruct (fetch_loop_exhausted w url fetch_methods
              (logged INFO (FetchingURL (last_segment url)) s) Hbar)
    as (s' & He & Hc & Hl).
  rewrite He. split; [reflexivity|]. split; [exact Hc|].
  cbn [fst]. rewrite Hl. cbn. rewrite <- app_assoc. reflexivity.
Qed.

Lemma fetch_exhausted_raises_fixed_error_witness :
  (exec (fetch flaky "/jobs/a") initial_state).2
    = Raise (Exception_ "All fetch methods failed")
  ∧ calls (exec (fetch flaky "/jobs/a") initial_state).1
    = [(Tls, "/jobs/a"); (Aiohttp, "/jobs/a"); (Httpx, "/jobs/a")]
  ∧ log (exec (fetch flaky "/jobs/a") initial_state).1
    = [(INFO, FetchingURL "a"); (ERROR, TlsClientError "refused");
       (ERROR, AiohttpError "refused"); (ERROR, HttpxError "refused")].
Proof.
  apply (fetch_exhausted_raises_fixed_error flaky "/jobs/a" initial_state).
  intros [|[|[|i]]] lib H; try discriminate H; injection H as <-; reflexivity.
Defined.

(** C4, as the spec has it, fails: two requests whose libraries failed
    for different reasons raise the very same exception value, so the
    exception cannot carry the failure of each library. *)
Lemma fetch_error_carries_no_failures :
  (exec (fetch flaky "/jobs/a") initial_state).2
    = Raise (Exception_ "All fetch methods failed")
  ∧ (exec (fetch flaky "/jobs/c") initial_state).2
    = Raise (Exception_ "All fetch methods failed")
  ∧ failures flaky "/jobs/a" 0 fetch_methods ≠ failures flaky "/jobs/c" 0 fetch_methods.
Proof.
  split; [reflexivity|]. split; [reflexivity|]. vm_compute. discriminate.
Qed.

(** ** The pagination walk *)

Section WalkFacts.
Context (w : World) (self : ZipRecruiterScraper) (query : string).

Lemma exec_get_page (page_number : Z) (s : State) :
  exec (get_page w self page_number query) s =
  exec (fetch w (page_url self page_number query)) (asked page_number s).
Proof. reflexivity. Qed.

Lemma exec_get_page_frame (page_number : Z) (s : State) :
  let s' := (exec (get_page w self page_number query) s).1 in
  job_links s' = job_links s ∧ visited s' = visited s ++ [page_number] ∧ fs s' = fs s.
Proof.
  cbn zeta. rewrite exec_get_page.
  destruct (exec_fetch_frame w (page_url self page_number query) (asked page_number s))
    as (H1 & H2 & H3).
  rewrite H1, H2, H3. auto.
Qed.

Lemma get_page_nonempty (page_number : Z) (s s1 : State) (response : string) :
  exec (get_page w self page_number query) s = (s1, Ok response) →
  nonempty response = true.
Proof.
  rewrite exec_get_page, exec_fetch. apply exec_fetch_loop_nonempty.
Qed.

(** The page could not be fetched: the handler runs with [response]
    never assigned. *)
Lemma exec_get_links_fetch_fails (depth : nat) (page_number : Z) (s s1 : State) (e : PyExc) :
  exec (get_page w self page_number query) s = (s1, Raise e) →
  exec (get_links w self query (S depth) page_number) s =
  (logged ERROR (ErrorParsingPage page_number e) s1,
   Raise (UnboundLocalError "response")).
Proof.
  intros H. cbn [get_links]. rewrite exec_bind, exec_attempt, H. reflexivity.
Qed.

(** The page was fetched and every job anchor has an [href]. *)
Lemma exec_get_links_page (depth : nat) (page_number : Z) (s s1 : State)
    (response : string) (found : list string) :
  exec (get_page w self page_number query) s = (s1, Ok response) →
  hrefs (jobList_title (listing_soup w response)) = Ok found →
  let s2 := links_block page_number (jobList_title (listing_soup w response)) found s1 in
  exec (get_links w self query (S depth) page_number) s =
  match next_page_link (listing_soup w response) with
  | None => (logged INFO NoMorePages s2, Ok tt)
  | Some text =>
      match int w text with
      | Ok n =>
          exec (try_except (get_links w self query depth n)
                  (get_links_except page_number (Some response))) s2
      | Raise e => exec (get_links_except page_number (Some response) e) s2
      end
  end.
Proof.
  intros H Hh. cbn zeta.
  pose proof (get_page_nonempty _ _ _ _ H) as Hne.
  cbn [get_links]. rewrite exec_bind, exec_attempt, H. cbn [exec].
  rewrite Hne. rewrite !exec_try_except, exec_bind.
  assert (Hblock : exec
     match jobList_title (listing_soup w response) with
     | [] => logger_warning (NoLinksFound page_number)
     | _ :: _ =>
         found0 ← lift (hrefs (jobList_title (listing_soup w response)));
         modify (λ s0, set_job_links (job_links s0 ++ found0) s0);;
         logger_info
           (FoundLinks (length (jobList_title (listing_soup w response))) page_number)
     end s1
     = (links_block page_number (jobList_title (listing_soup w response)) found s1, Ok tt)).
  { destruct (jobList_title (listing_soup w response)) as [|l ls]; [reflexivity|].
    rewrite exec_bind, Hh. reflexivity. }
  rewrite Hblock.
  destruct (next_page_link (listing_soup w response)) as [text|]; [|reflexivity].
  rewrite exec_bind.
  destruct (int w text) as [n|e]; rewrite exec_lift; [|reflexivity].
  rewrite exec_try_except. reflexivity.
Qed.

(** The page was fetched but a job anchor lacks its [href]. *)
Lemma exec_get_links_href_missing (depth : nat) (page_number : Z) (s s1 : State)
    (response : string) (e : PyExc) :
  exec (get_page w self page_number query) s = (s1, Ok response) →
  hrefs (jobList_title (listing_soup w response)) = Raise e →
  exec (get_links w self query (S depth) page_number) s =
  exec (get_links_except page_number (Some response) e) s1.
Proof.
  intros H Hh.
  pose proof (get_page_nonempty _ _ _ _ H) as Hne.
  cbn [get_links]. rewrite exec_bind, exec_attempt, H. cbn [exec].
  rewrite Hne. rewrite !exec_try_except, exec_bind.
  destruct (jobList_title (listing_soup w response)) as [|l ls]; [discriminate|].
  rewrite exec_bind, Hh. reflexivity.
Qed.

Lemma exec_get_links_except_frame (page_number : Z) (response : option string)
    (e : PyExc) (s : State) :
  let s' := (exec (get_links_except page_number response e) s).1 in
  job_links s' = job_links s ∧ visited s' = visited s ∧ fs s' = fs s.
Proof.
  unfold get_links_except. cbn zeta. rewrite exec_bind, exec_logger_error.
  destruct response as [text|]; [|cbn; auto].
  destruct (nonempty text); cbn; auto.
Qed.

Lemma links_block_frame (page_number : Z) (links : list (option string))
    (found : list string) (s : State) :
  visited (links_block page_number links found s) = visited s
  ∧ fs (links_block page_number links found s) = fs s.
Proof. destruct links; cbn; auto. Qed.

Lemma job_links_links_block (page_number : Z) (links : list (option string))
    (found : list string) (s : State) :
  hrefs links = Ok found →
  job_links (links_block page_number links found s) = job_links s ++ found.
Proof.
  intros H. destruct links; [|reflexivity].
  cbn in H. injection H as <-. cbn. rewrite app_nil_r. reflexivity.
Qed.

(** The walk only ever appends to [self.job_links]. *)
Lemma get_links_append_only (depth : nat) : ∀ (page_number : Z) (s : State),
  ∃ later,
    job_links (exec (get_links w self query depth page_number) s).1
    = job_links s ++ later.
Proof.
  induction depth as [|depth IH]; intros page s.
  - exists []. cbn. rewrite app_nil_r. reflexivity.
  - destruct (exec_get_page_frame page s) as (Hj & _ & _).
    destruct (exec (get_page w self page query) s) as [s1 [response|e]] eqn:Hp;
      cbn [fst] in Hj.
    + destruct (hrefs (jobList_title (listing_soup w response))) as [found|e] eqn:Hh.
      * rewrite (exec_get_links_page _ _ _ _ _ _ Hp Hh). cbn zeta.
        set (s2 := links_block page _ found s1).
        assert (Hs2 : job_links s2 = job_links s ++ found).
        { unfold s2. rewrite job_links_links_block by exact Hh. congruence. }
        destruct (next_page_link (listing_soup w response)) as [text|].
        -- destruct (int w text) as [n|e'].
           ++ rewrite exec_try_except.
              destruct (IH n s2) as (later & Hl).
              destruct (exec (get_links w self query depth n) s2) as [s3 [[]|e]];
                cbn [fst] in *.
              ** exists (found ++ later). rewrite Hl, Hs2, app_assoc. reflexivity.
              ** destruct (exec_get_links_except_frame page (Some response) e s3)
                   as (Hf & _).
                 exists (found ++ later). rewrite Hf, Hl, Hs2, app_assoc. reflexivity.
           ++ destruct (exec_get_links_except_frame page (Some response) e' s2)
                as (Hf & _).
              exists found. rewrite Hf, Hs2. reflexivity.
        -- exists found. cbn. exact Hs2.
      * rewrite (exec_get_links_href_missing _ _ _ _ _ _ Hp Hh).
        destruct (exec_get_links_except_frame page (Some response) e s1) as (Hf & _).
        exists []. rewrite Hf, Hj, app_nil_r. reflexivity.
    + rewrite (exec_get_links_fetch_fails _ _ _ _ _ Hp).
      exists []. cbn. rewrite Hj, app_nil_r. reflexivity.
Qed.

(** The links of a fetched page go in as they are, after the links
    already there. *)
Lemma get_links_page_appended (depth : nat) (page_number : Z) (s s1 : State)
    (response : string) (found : list string) :
  exec (get_page w self page_number query) s = (s1, Ok response) →
  hrefs (jobList_title (listing_soup w response)) = Ok found →
  ∃ later,
    job_links (exec (get_links w self query (S depth) page_number) s).1
    = job_links s ++ found ++ later.
Proof.
  intros Hp Hh.
  destruct (exec_get_page_frame page_number s) as (Hj & _ & _).
  rewrite Hp in Hj. cbn [fst] in Hj.
  rewrite (exec_get_links_page _ _ _ _ _ _ Hp Hh). cbn zeta.
  set (s2 := links_block page_number _ found s1).
  assert (Hs2 : job_links s2 = job_links s ++ found).
  { unfold s2. rewrite job_links_links_block by exact Hh. congruence. }
  destruct (next_page_link (listing_soup w response)) as [text|].
  - destruct (int w text) as [n|e'].
    + rewrite exec_try_except.
      destruct (get_links_append_only depth n s2) as (later & Hl).
      destruct (exec (get_links w self query depth n) s2) as [s3 [[]|e]]; cbn [fst] in *.
      * exists later. rewrite Hl, Hs2, app_assoc. reflexivity.
      * destruct (exec_get_links_except_frame page_number (Some response) e s3)
          as (Hf & _).
        exists later. rewrite Hf, Hl, Hs2, app_assoc. reflexivity.
    + destruct (exec_get_links_except_frame page_number (Some response) e' s2)
        as (Hf & _).
      exists []. rewrite Hf, Hs2, app_nil_r. reflexivity.
  - exists []. cbn. rewrite Hs2, app_nil_r. reflexivity.
Qed.

(** What [load_links] returns starts with the links that were already in
    [self.job_links] when it was called. *)
Lemma load_links_keeps_earlier_links (recursion_limit : nat) (s s' : State)
    (links : list string) :
  exec (load_links w recursion_limit self query) s = (s', Ok links) →
  ∃ later, links = job_links s ++ later.
Proof.
  unfold load_links. rewrite exec_bind, exec_logger_info, exec_bind.
  destruct (get_links_append_only recursion_limit 1 (logged INFO StartingToLoad s))
    as (later & Hl).
  destruct (exec (get_links w self query recursion_limit 1) _) as [s1 [[]|e]];
    [|discriminate].
  rewrite exec_bind, exec_get. cbn beta iota.
  rewrite exec_bind, exec_logger_info, exec_mret.
  intros [= _ <-]. exists later. exact Hl.
Qed.

End WalkFacts.

(** C10. When the fetch of a listing page raises, [response] has not been
    assigned in that [get_links] frame: the frame's own [except] clause
    logs the parse error and then reads the unbound [response], so the
    frame ends with [UnboundLocalError] (a [NameError]) instead of
    returning. On page 1 this error leaves [load_links] itself: no link
    list is returned. *)
Theorem get_links_handler_unbound_response (w : World) (self : ZipRecruiterScraper)
    (query : string) (depth : nat) :
  (∀ (page_number : Z) (s s1 : State) (e : PyExc),
     exec (get_page w self page_number query) s = (s1, Raise e) →
     exec (get_links w self query (S depth) page_number) s
     = (logged ERROR (ErrorParsingPage page_number e) s1,
        Raise (UnboundLocalError "response")))
  ∧ (∀ (s s1 : State) (e : PyExc),
     exec (get_page w self 1 query) (logged INFO StartingToLoad s) = (s1, Raise e) →
     exec (load_links w (S depth) self query) s
     = (logged ERROR (ErrorParsingPage 1 e) s1, Raise (UnboundLocalError "response"))).
Proof.
  split.
  - intros page_number s s1 e H. apply exec_get_links_fetch_fails. exact H.
  - intros s s1 e H. unfold load_links.
    rewrite exec_bind, exec_logger_info, exec_bind.
    rewrite (exec_get_links_fetch_fails _ _ _ _ _ _ _ _ H). reflexivity.
Qed.

Lemma get_links_handler_unbound_response_witness :
  (exec (get_links flaky demo_scraper "aws" 1000 7) initial_state).2
    = Raise (UnboundLocalError "response")
  ∧ (exec (load_links flaky 1000 demo_scraper "java") initial_state).2
    = Raise (UnboundLocalError "response").
Proof.
  destruct (get_links_handler_unbound_response flaky demo_scraper "aws" 999) as [H _].
  destruct (get_links_handler_unbound_response flaky demo_scraper "java" 999) as [_ H'].
  split.
  - erewrite (H 7 initial_state); reflexivity.
  - erewrite (H' initial_state); reflexivity.
Defined.

(** ** The walk as a whole *)

Section CrawlFacts.
Context (w : World) (self : ZipRecruiterScraper) (query : string).

(** A body that [fetch] returns is a body some library was served. *)
Lemma fetch_loop_served (url : string) (methods : list Strategy) :
  ∀ (s s' : State) (body : string),
  exec (fetch_loop w methods url) s = (s', Ok body) →
  ∃ t lib, net w t lib url = Text body.
Proof.
  induction methods as [|b methods IH]; intros s s' body; [cbn; congruence|].
  rewrite exec_fetch_loop_cons.
  destruct (net w (clock s) b url) as [body0|msg] eqn:Hnet; [|apply IH].
  destruct (nonempty body0); [|apply IH].
  intros [= _ <-]. eauto.
Qed.

Lemma get_page_served (page_number : Z) (s s1 : State) (response : string) :
  exec (get_page w self page_number query) s = (s1, Ok response) →
  ∃ t lib, net w t lib (page_url self page_number query) = Text response.
Proof. rewrite exec_get_page, exec_fetch. apply fetch_loop_served. Qed.

Lemma exec_get_links_except_visited (page_number : Z) (response : option string)
    (e : PyExc) (s : State) :
  visited (exec (get_links_except page_number response e) s).1 = visited s
  ∧ job_links (exec (get_links_except page_number response e) s).1 = job_links s.
Proof.
  destruct (exec_get_links_except_frame page_number response e s) as (H1 & H2 & _).
  auto.
Qed.

(** The walk's footprint is the one [crawl] reads off the world. *)
Lemma get_links_crawl (depth : nat) : ∀ (page_number : Z) (s : State),
  visited (exec (get_links w self query depth page_number) s).1
  = visited s ++ map fst (crawl w self query depth page_number s)
  ∧ job_links (exec (get_links w self query depth page_number) s).1
    = job_links s ++ concat (map snd (crawl w self query depth page_number s)).
Proof.
  induction depth as [|depth IH]; intros page s.
  - cbn. rewrite !app_nil_r. auto.
  - destruct (exec_get_page_frame w self query page s) as (Hj & Hv & _).
    cbn [crawl].
    destruct (exec (get_page w self page query) s) as [s1 [response|e]] eqn:Hp;
      cbn [fst] in Hj, Hv.
    + cbn zeta.
      destruct (hrefs (jobList_title (listing_soup w response))) as [found|e] eqn:Hh.
      * rewrite (exec_get_links_page _ _ _ _ _ _ _ _ _ Hp Hh). cbn zeta.
        set (s2 := links_block page _ found s1).
        assert (Hj2 : job_links s2 = job_links s ++ found).
        { unfold s2. rewrite job_links_links_block by exact Hh. congruence. }
        assert (Hv2 : visited s2 = visited s ++ [page]).
        { unfold s2.
          destruct (links_block_frame page (jobList_title (listing_soup w response))
                      found s1) as (H & _).
          congruence. }
        destruct (next_page_link (listing_soup w response)) as [text|].
        -- destruct (int w text) as [n|e'].
           ++ rewrite exec_try_except.
              destruct (IH n s2) as (Hiv & Hij).
              destruct (exec (get_links w self query depth n) s2) as [s3 [[]|e]];
                cbn [fst] in *.
              ** rewrite Hiv, Hij, Hv2, Hj2. cbn. rewrite <- !app_assoc. auto.
              ** destruct (exec_get_links_except_visited page (Some response) e s3)
                   as (H1 & H2).
                 rewrite H1, H2, Hiv, Hij, Hv2, Hj2. cbn. rewrite <- !app_assoc. auto.
           ++ destruct (exec_get_links_except_visited page (Some response) e' s2)
                as (H1 & H2).
              rewrite H1, H2, Hv2, Hj2. cbn. rewrite !app_nil_r. auto.
        -- cbn. rewrite Hv2, Hj2, !app_nil_r. auto.
      * rewrite (exec_get_links_href_missing _ _ _ _ _ _ _ _ _ Hp Hh).
        destruct (exec_get_links_except_visited page (Some response) e s1) as (H1 & H2).
        rewrite H1, H2, Hv, Hj. cbn. rewrite app_nil_r. auto.
    + rewrite (exec_get_links_fetch_fails _ _ _ _ _ _ _ _ Hp).
      cbn. rewrite Hv, Hj, app_nil_r. auto.
Qed.

(** Every entry of [crawl] is a page that was asked for, with the links
    of the body it was served then. *)
Lemma crawl_entries (depth : nat) : ∀ (page_number : Z) (s : State),
  Forall (λ entry, ∃ s0, entry.2 = page_links w self query entry.1 s0)
         (crawl w self query depth page_number s).
Proof.
  induction depth as [|depth IH]; intros page s; [constructor|].
  assert (Hhead : ∃ s0, page_links w self query page s = page_links w self query page s0)
    by eauto.
  revert Hhead. unfold page_links at 1. cbn [crawl].
  destruct (exec (get_page w self page query) s) as [s1 [response|e]] eqn:Hp.
  - cbn zeta.
    destruct (hrefs (jobList_title (listing_soup w response))) as [found|e] eqn:Hh;
      intros Hhead.
    + constructor; [exact Hhead|].
      destruct (next_page_link (listing_soup w response)) as [text|]; [|constructor].
      destruct (int w text) as [n|e']; [apply IH|constructor].
    + constructor; [exact Hhead|constructor].
  - intros Hhead. constructor; [exact Hhead|constructor].
Qed.

(** A walk with depth left starts with the page it is called on. *)
Lemma crawl_head (depth : nat) (page_number : Z) (s : State) :
  ∃ found rest, crawl w self query (S depth) page_number s = (page_number, found) :: rest.
Proof.
  cbn [crawl].
  destruct (exec (get_page w self page_number query) s) as [s1 [response|e]]; [|eauto].
  cbn zeta. destruct (hrefs (jobList_title (listing_soup w response))); eauto.
Qed.

(** On a site whose tokens point forward the pages of a walk ascend. *)
Lemma crawl_ascends (depth : nat) :
  tokens_ascend w self query →
  ∀ (page_number : Z) (s : State),
  StronglySorted Z.lt (map fst (crawl w self query depth page_number s))
  ∧ Forall (Z.le page_number) (map fst (crawl w self query depth page_number s)).
Proof.
  intros Hasc. induction depth as [|depth IH]; intros page s.
  - cbn. split; constructor.
  - assert (Hone : StronglySorted Z.lt [page] ∧ Forall (Z.le page) [page]).
    { split; repeat constructor. lia. }
    cbn [crawl].
    destruct (exec (get_page w self page query) s) as [s1 [response|e]] eqn:Hp;
      [|exact Hone].
    cbn zeta.
    destruct (hrefs (jobList_title (listing_soup w response))) as [found|e] eqn:Hh;
      [|exact Hone].
    destruct (next_page_link (listing_soup w response)) as [text|] eqn:Hnext;
      [|exact Hone].
    destruct (int w text) as [n|e'] eqn:Hint; [|exact Hone].
    destruct (get_page_served page s s1 response Hp) as (t & lib & Hnet).
    pose proof (Hasc t lib page response text n Hnet Hnext Hint) as Hlt.
    destruct (IH n (links_block page (jobList_title (listing_soup w response)) found s1))
      as (Hsorted & Hge).
    cbn [map fst]. split.
    + constructor; [exact Hsorted|].
      eapply Forall_impl; [exact Hge|]. intros p Hp'. cbn in Hp'. lia.
    + constructor; [lia|].
      eapply Forall_impl; [exact Hge|]. intros p Hp'. cbn in Hp'. lia.
Qed.

End CrawlFacts.

Lemma ascending_no_repeats (pages : list Z) : StronglySorted Z.lt pages → NoDup pages.
Proof.
  induction 1 as [|p pages _ IH Hall]; constructor; [|exact IH].
  intros Hin. rewrite List.Forall_forall in Hall.
  apply list_elem_of_In in Hin. specialize (Hall p Hin). lia.
Qed.

(** ** The listing URL determines the page number *)

Lemma chars_app (a b : string) : chars (a +:+ b) = chars a ++ chars b.
Proof.
  unfold chars. induction a as [|c a IH]; [reflexivity|].
  change (String c a +:+ b) with (String c (a +:+ b)).
  cbn [list_ascii_of_string app]. f_equal. exact IH.
Qed.

Lemma chars_inj (a b : string) : chars a = chars b → a = b.
Proof.
  intros H. rewrite <- (string_of_list_ascii_of_string a),
    <- (string_of_list_ascii_of_string b).
  unfold chars in H. rewrite H. reflexivity.
Qed.

Lemma string_app_inv_tail (a b c : string) : a +:+ c = b +:+ c → a = b.
Proof.
  intros H. apply chars_inj. apply (f_equal chars) in H.
  rewrite !chars_app in H. eapply app_inv_tail, H.
Qed.

Lemma hex_val_digit (n : nat) : (n < 16)%nat → hex_val (hex_digit n) = n.
Proof.
  intros H. do 16 (destruct n as [|n]; [reflexivity|]). lia.
Qed.

Lemma code_inj (c c' : ascii) : code c = code c' → c = c'.
Proof.
  unfold code. intros H.
  rewrite <- (ascii_nat_embedding c), <- (ascii_nat_embedding c'), H. reflexivity.
Qed.

Lemma code_bound (c : ascii) : (code c < 256)%nat.
Proof. apply nat_ascii_bounded. Qed.

Lemma quote_plus_cons (c : ascii) (r : string) :
  quote_plus (String c r) =
  if url_safe c then String c (quote_plus r)
  else if (code c =? 32)%nat then String "+" (quote_plus r)
  else String "%" (String (hex_digit (code c / 16))
                     (String (hex_digit (code c mod 16)) (quote_plus r))).
Proof. reflexivity. Qed.

Lemma string_cons_inj (c c' : ascii) (r r' : string) :
  String c r = String c' r' → c = c' ∧ r = r'.
Proof. intros H. injection H. auto. Qed.

Lemma code_div_mod (c c' : ascii) :
  hex_digit (code c / 16) = hex_digit (code c' / 16) →
  hex_digit (code c mod 16) = hex_digit (code c' mod 16) →
  c = c'.
Proof.
  intros Hhi Hlo.
  pose proof (code_bound c) as Hb. pose proof (code_bound c') as Hb'.
  assert (Hq : ∀ n, (n < 256 → n / 16 < 16)%nat).
  { intros n Hn. apply Nat.Div0.div_lt_upper_bound. lia. }
  assert (Hr : ∀ n, (n mod 16 < 16)%nat).
  { intros n. apply Nat.mod_upper_bound. lia. }
  apply (f_equal hex_val) in Hhi, Hlo.
  rewrite (hex_val_digit _ (Hq _ Hb)), (hex_val_digit _ (Hq _ Hb')) in Hhi.
  rewrite (hex_val_digit _ (Hr _)), (hex_val_digit _ (Hr _)) in Hlo.
  apply code_inj.
  rewrite (Nat.div_mod_eq (code c) 16), (Nat.div_mod_eq (code c') 16).
  congruence.
Qed.

Lemma quote_plus_inj (a : string) : ∀ b, quote_plus a = quote_plus b → a = b.
Proof.
  assert (Hplus : url_safe "+" = false) by reflexivity.
  assert (Hpct : url_safe "%" = false) by reflexivity.
  induction a as [|c a IH]; intros [|c' b]; rewrite ?quote_plus_cons.
  - reflexivity.
  - destruct (url_safe c'); [discriminate|].
    destruct (code c' =? 32)%nat; discriminate.
  - destruct (url_safe c); [discriminate|].
    destruct (code c =? 32)%nat; discriminate.
  - destruct (url_safe c) eqn:Hc, (url_safe c') eqn:Hc'.
    + intros H. apply string_cons_inj in H as [-> H]. f_equal. apply IH, H.
    + destruct (code c' =? 32)%nat; intros H; apply string_cons_inj in H as [-> _];
        congruence.
    + destruct (code c =? 32)%nat; intros H; apply string_cons_inj in H as [<- _];
        congruence.
    + destruct (code c =? 32)%nat eqn:Hs, (code c' =? 32)%nat eqn:Hs'.
      * intros H. apply string_cons_inj in H as [_ H]. apply Nat.eqb_eq in Hs, Hs'.
        f_equal; [apply code_inj; congruence|apply IH, H].
      * discriminate.
      * discriminate.
      * intros H. apply string_cons_inj in H as [_ H].
        apply string_cons_inj in H as [Hhi H]. apply string_cons_inj in H as [Hlo H].
        f_equal; [apply code_div_mod; assumption|apply IH, H].
Qed.

Lemma page_url_inj (self : ZipRecruiterScraper) (query : string) (p p' : Z) :
  page_url self p query = page_url self p' query → p = p'.
Proof.
  unfold page_url, urlencode. intros H.
  apply String.app_inj in H. apply String.app_inj in H. apply String.app_inj in H.
  apply string_app_inv_tail in H. apply quote_plus_inj in H.
  unfold str_int in H. apply (inj pretty) in H. exact H.
Qed.

Lemma repeating_tokens_ascend : tokens_ascend repeating demo_scraper "aws".
Proof.
  intros t lib page body text n Hnet Hnext Hint.
  destruct lib; cbn [net repeating] in Hnet; try discriminate Hnet.
  destruct (String.eqb_spec (page_url demo_scraper page "aws") (listing_url "1" "aws"))
    as [H1|_].
  - change (listing_url "1" "aws") with (page_url demo_scraper 1 "aws") in H1.
    apply page_url_inj in H1. subst page.
    injection Hnet as <-. vm_compute in Hnext. injection Hnext as <-.
    vm_compute in Hint. injection Hint as <-. lia.
  - destruct (String.eqb_spec (page_url demo_scraper page "aws") (listing_url "2" "aws"))
      as [H2|_]; [|discriminate Hnet].
    injection Hnet as <-. vm_compute in Hnext. discriminate Hnext.
Qed.

Section WalkOutcome.
Context (w : World) (self : ZipRecruiterScraper) (query : string).

(** With [response] bound the handler logs twice and returns. *)
Lemma exec_get_links_except_bound (page_number : Z) (response : string) (e : PyExc)
    (s : State) :
  nonempty response = true →
  exec (get_links_except page_number (Some response) e) s
  = (logged ERROR (ResponseContent (take_string 500 response))
       (logged ERROR (ErrorParsingPage page_number e) s), Ok tt).
Proof.
  intros Hne. unfold get_links_except.
  rewrite exec_bind, exec_logger_error, Hne, exec_logger_error. reflexivity.
Qed.

(** Once its page is fetched a frame of the walk returns normally. *)
Lemma get_links_ok_when_fetched (depth : nat) (page_number : Z) (s s1 : State)
    (response : string) :
  exec (get_page w self page_number query) s = (s1, Ok response) →
  (exec (get_links w self query (S depth) page_number) s).2 = Ok tt.
Proof.
  intros Hp. pose proof (get_page_nonempty _ _ _ _ _ _ _ Hp) as Hne.
  destruct (hrefs (jobList_title (listing_soup w response))) as [found|e] eqn:Hh.
  - rewrite (exec_get_links_page _ _ _ _ _ _ _ _ _ Hp Hh). cbn zeta.
    destruct (next_page_link (listing_soup w response)) as [text|]; [|reflexivity].
    destruct (int w text) as [n|e'].
    + rewrite exec_try_except.
      destruct (exec (get_links w self query depth n) _) as [s3 [[]|e]]; [reflexivity|].
      rewrite exec_get_links_except_bound by exact Hne. reflexivity.
    + rewrite exec_get_links_except_bound by exact Hne. reflexivity.
  - rewrite (exec_get_links_href_missing _ _ _ _ _ _ _ _ _ Hp Hh).
    rewrite exec_get_links_except_bound by exact Hne. reflexivity.
Qed.

End WalkOutcome.

(** C3, as the code has it. (1) A walk that reaches a listing page
    yielding no next-page token ends there and returns normally: no
    further page is asked for. (2) When a page whose job anchors all
    have an [href] yields a token that [int] reads as [n], and the
    recursion limit allows one more frame, the page asked for next is
    page [n], whatever the order of [n] and the current page number.
    (3) On a site where the token of every page served reads as a number
    greater than that page's own, the pages of every walk are asked for
    in strictly increasing order, none of them twice. The code compares
    no page numbers itself. *)
Theorem get_links_follows_next_token (w : World) (self : ZipRecruiterScraper)
    (query : string) :
  (∀ depth page_number s s1 response,
     exec (get_page w self page_number query) s = (s1, Ok response) →
     next_page_link (listing_soup w response) = None →
     (exec (get_links w self query (S depth) page_number) s).2 = Ok tt
     ∧ visited (exec (get_links w self query (S depth) page_number) s).1
       = visited s ++ [page_number])
  ∧ (∀ depth page_number s s1 response found text n,
     exec (get_page w self page_number query) s = (s1, Ok response) →
     hrefs (jobList_title (listing_soup w response)) = Ok found →
     next_page_link (listing_soup w response) = Some text →
     int w text = Ok n →
     ∃ later,
       visited (exec (get_links w self query (S (S depth)) page_number) s).1
       = visited s ++ page_number :: n :: later)
  ∧ (tokens_ascend w self query →
     ∀ depth page_number s,
     ∃ pages,
       visited (exec (get_links w self query depth page_number) s).1
       = visited s ++ pages
       ∧ StronglySorted Z.lt pages
       ∧ NoDup pages).
Proof.
  split; [|split].
  - intros depth page s s1 response Hp Hnone.
    split; [eapply get_links_ok_when_fetched, Hp|].
    destruct (get_links_crawl w self query (S depth) page s) as (Hv & _).
    rewrite Hv. cbn [crawl]. rewrite Hp. cbn zeta. rewrite Hnone.
    destruct (hrefs (jobList_title (listing_soup w response))); reflexivity.
  - intros depth page s s1 response found text n Hp Hh Hnext Hint.
    destruct (get_links_crawl w self query (S (S depth)) page s) as (Hv & _).
    rewrite Hv. cbn [crawl]. rewrite Hp. cbn zeta. rewrite Hh, Hnext, Hint.
    destruct (crawl_head w self query depth n
                (links_block page (jobList_title (listing_soup w response)) found s1))
      as (found' & rest & Hhead).
    cbn [crawl] in Hhead. rewrite Hhead. exists (map fst rest). reflexivity.
  - intros Hasc depth page s.
    destruct (get_links_crawl w self query depth page s) as (Hv & _).
    destruct (crawl_ascends w self query depth Hasc page s) as (Hsorted & _).
    exists (map fst (crawl w self query depth page s)).
    split; [exact Hv|]. split; [exact Hsorted|].
    apply ascending_no_repeats, Hsorted.
Qed.

Lemma get_links_follows_next_token_witness :
  visited (exec (get_links repeating demo_scraper "aws" 1000 2) initial_state).1 = [2]
  ∧ (∃ later,
       visited (exec (get_links backward demo_scraper "aws" 1000 1) initial_state).1
       = 1 :: 2 :: later)
  ∧ ∃ pages,
      visited (exec (get_links repeating demo_scraper "aws" 1000 1) initial_state).1
      = pages
      ∧ StronglySorted Z.lt pages ∧ NoDup pages.
Proof.
  destruct (get_links_follows_next_token repeating demo_scraper "aws")
    as (Hends & _ & Hsorted).
  destruct (get_links_follows_next_token backward demo_scraper "aws")
    as (_ & Hfollows & _).
  split; [|split].
  - refine (proj2 (Hends 999%nat 2 initial_state
                     (exec (get_page repeating demo_scraper 2 "aws") initial_state).1
                     "<aws 2>" _ _)); vm_compute; reflexivity.
  - refine (Hfollows 998%nat 1 initial_state
              (exec (get_page backward demo_scraper 1 "aws") initial_state).1
              "<aws 1>" ["/jobs/a"] "2" 2 _ _ _ _); vm_compute; reflexivity.
  - exact (Hsorted repeating_tokens_ascend 1000%nat 1 initial_state).
Defined.

(** C3, as the spec has it, fails: on a site whose page 2 points back to
    page 1 the walk asks for pages 1, 2, 1 and ends normally; the
    sequence is not increasing and page 1 is visited twice. *)
Lemma walk_revisits_page :
  exec (load_links backward 1000 demo_scraper "aws") initial_state
  = ((exec (load_links backward 1000 demo_scraper "aws") initial_state).1,
     Ok ["/jobs/a"; "/jobs/b"])
  ∧ visited (exec (load_links backward 1000 demo_scraper "aws") initial_state).1
    = [1; 2; 1]
  ∧ ¬ NoDup (visited (exec (load_links backward 1000 demo_scraper "aws") initial_state).1)
  ∧ ¬ StronglySorted Z.lt
        (visited (exec (load_links backward 1000 demo_scraper "aws") initial_state).1).
Proof.
  assert (Hv : visited (exec (load_links backward 1000 demo_scraper "aws") initial_state).1
               = [1; 2; 1]) by (vm_compute; reflexivity).
  split; [vm_compute; reflexivity|]. split; [exact Hv|]. rewrite Hv. split.
  - intros H. apply NoDup_cons_1_1 in H. apply H. set_solver.
  - intros H. inversion H as [|? ? _ Hall]; subst.
    inversion Hall as [|? ? _ Hall']; subst.
    inversion Hall' as [|? ? Hlt _]; subst. lia.
Qed.

(** C6, as the code has it. Whatever the site serves, a walk leaves in
    the link list the links that were there before it, followed by the
    links of the pages it asked for, page after page in the order of the
    visits and each link as often and where its page lists it: [pages]
    pairs every page asked for with the links it contributed, which are
    the [href]s of all job anchors of the body served for that page, or
    none (the page could not be fetched, or one of its job anchors has
    no [href]; either ends the walk). Nothing is removed or merged, so
    the list is free of duplicates exactly when no link occurs twice
    among the earlier links and those listed. The list [load_links]
    returns is this list, for the walk from page 1. *)
Theorem get_links_keeps_every_link (w : World) (self : ZipRecruiterScraper)
    (query : string) :
  (∀ depth page_number s,
     let final := (exec (get_links w self query depth page_number) s).1 in
     let pages := crawl w self query depth page_number s in
     job_links final = job_links s ++ concat (map snd pages)
     ∧ visited final = visited s ++ map fst pages
     ∧ Forall (λ entry, ∃ s0, entry.2 = page_links w self query entry.1 s0) pages
     ∧ (NoDup (job_links final) ↔ NoDup (job_links s ++ concat (map snd pages))))
  ∧ (∀ recursion_limit s s' links,
     exec (load_links w recursion_limit self query) s = (s', Ok links) →
     links = job_links s'
     ∧ links = job_links s
               ++ concat (map snd (crawl w self query recursion_limit 1
                                     (logged INFO StartingToLoad s)))).
Proof.
  split.
  - intros depth page s final pages.
    destruct (get_links_crawl w self query depth page s) as (Hv & Hj).
    fold final pages in Hv, Hj.
    split; [exact Hj|]. split; [exact Hv|].
    split; [apply crawl_entries|]. rewrite Hj. reflexivity.
  - intros limit s s' links. unfold load_links.
    rewrite exec_bind, exec_logger_info, exec_bind.
    destruct (get_links_crawl w self query limit 1 (logged INFO StartingToLoad s))
      as (_ & Hj).
    destruct (exec (get_links w self query limit 1) _) as [s1 [[]|e]]; [|discriminate].
    rewrite exec_bind, exec_get. cbn beta iota.
    rewrite exec_bind, exec_logger_info, exec_mret.
    intros [= <- <-]. split; [reflexivity|exact Hj].
Qed.

Lemma get_links_keeps_every_link_witness :
  ["/jobs/a"; "/jobs/a"]
  = job_links initial_state
    ++ concat (map snd (crawl repeating demo_scraper "aws" 1000 1
                          (logged INFO StartingToLoad initial_state))).
Proof.
  refine (proj2 (proj2 (get_links_keeps_every_link repeating demo_scraper "aws")
                   1000%nat initial_state
                   (exec (load_links repeating 1000 demo_scraper "aws") initial_state).1
                   ["/jobs/a"; "/jobs/a"] _)).
  vm_compute. reflexivity.
Defined.

(** C6, as the spec has it, fails: a posting listed on page 1 and again
    on page 2 is in the resulting link list twice. *)
Lemma crawl_keeps_duplicate_links :
  (exec (load_links repeating 1000 demo_scraper "aws") initial_state).2
  = Ok ["/jobs/a"; "/jobs/a"]
  ∧ ¬ NoDup (job_links (exec (load_links repeating 1000 demo_scraper "aws")
                          initial_state).1).
Proof.
  assert (Hj : job_links (exec (load_links repeating 1000 demo_scraper "aws")
                            initial_state).1 = ["/jobs/a"; "/jobs/a"])
    by (vm_compute; reflexivity).
  split; [vm_compute; reflexivity|]. rewrite Hj.
  intros H. apply NoDup_cons_1_1 in H. apply H. set_solver.
Qed.

(** ** Detail extraction *)




(** ** The sink *)

Section SinkFacts.
Context (w : World).

Lemma exec_open_file (path : string) (s : State) :
  exec (open_file w path) s =
  match open_error w (clock s) path with
  | Some msg => (set_clock (S (clock s)) s, Raise (OSError msg))
  | None => (set_clock (S (clock s)) s, Ok tt)
  end.
Proof.
  unfold open_file. rewrite exec_bind, exec_tick.
  destruct (open_error w (clock s) path); reflexivity.
Qed.

Lemma exec_initialize_file (self : CSVWriter) (s : State) :
  exec (initialize_file w self) s =
  match fs s !! filename self with
  | Some _ => (s, Ok tt)
  | None =>
      match open_error w (clock s) (filename self) with
      | Some msg => (set_clock (S (clock s)) s, Raise (OSError msg))
      | None =>
          (set_fs (<[filename self := [Header (fieldnames self)]]> (fs s))
             (set_clock (S (clock s)) s), Ok tt)
      end
  end.
Proof.
  unfold initialize_file. rewrite exec_bind, exec_get.
  destruct (fs s !! filename self); [reflexivity|].
  rewrite exec_bind, exec_open_file.
  destruct (open_error w (clock s) (filename self)); reflexivity.
Qed.

Lemma exec_new_CSVWriter (path : string) (fields : list string) (s : State) :
  exec (new_CSVWriter w path fields) s =
  match exec (initialize_file w (mkCSVWriter path fields)) s with
  | (s', Ok _) => (s', Ok (mkCSVWriter path fields))
  | (s', Raise e) => (s', Raise e)
  end.
Proof. unfold new_CSVWriter. cbn zeta. rewrite exec_bind. reflexivity. Qed.

(** Over an existing file the constructor changes nothing at all. *)
Lemma new_CSVWriter_existing (path : string) (fields : list string) (s : State) :
  is_Some (fs s !! path) →
  exec (new_CSVWriter w path fields) s = (s, Ok (mkCSVWriter path fields)).
Proof.
  intros [content H]. rewrite exec_new_CSVWriter, exec_initialize_file.
  cbn [filename]. rewrite H. reflexivity.
Qed.

Lemma exec_save_row (self : CSVWriter) (data : JobRecord) (s : State) :
  exec (save_row w self data) s =
  match open_error w (clock s) (filename self) with
  | Some msg => (set_clock (S (clock s)) s, Raise (OSError msg))
  | None =>
      let content := default [] (fs s !! filename self) in
      match extra_keys (fieldnames self) with
      | [] =>
          (set_fs (<[filename self := content ++ [Row data]]> (fs s))
             (set_clock (S (clock s)) s), Ok tt)
      | _ =>
          (set_fs (<[filename self := content]> (fs s)) (set_clock (S (clock s)) s),
           Raise (ValueError "dict contains fields not in fieldnames"))
      end
  end.
Proof.
  unfold save_row. rewrite exec_bind, exec_open_file.
  destruct (open_error w (clock s) (filename self)); [reflexivity|].
  rewrite exec_bind, exec_modify. cbn zeta.
  destruct (extra_keys (fieldnames self)); [|reflexivity].
  rewrite exec_modify. cbn [fs set_fs set_clock clock log job_links calls visited].
  rewrite lookup_insert_eq, insert_insert_eq. reflexivity.
Qed.

Lemma sink_op_keeps_header (path : string) (fields : list string) (op : SinkOp)
    (s : State) :
  header_then_rows path fields s →
  header_then_rows path fields (exec (sink_op w path op) s).1.
Proof.
  intros [rows H]. destruct op as [fields'|fields' data]; cbn [sink_op].
  - rewrite exec_bind, new_CSVWriter_existing by (rewrite H; eauto).
    exists rows. exact H.
  - rewrite exec_save_row. cbn [filename fieldnames].
    destruct (open_error w (clock s) path); [exists rows; exact H|].
    cbn zeta. rewrite H. cbn [default].
    destruct (extra_keys fields'); unfold header_then_rows; cbn [fst fs set_fs].
    + exists (rows ++ [data]). rewrite lookup_insert_eq, map_app. reflexivity.
    + exists rows. rewrite lookup_insert_eq. reflexivity.
Qed.

Lemma sink_ops_keep_header (path : string) (fields : list string) (ops : list SinkOp) :
  ∀ s : State,
  header_then_rows path fields s →
  header_then_rows path fields (exec (sink_ops w path ops) s).1.
Proof.
  induction ops as [|op ops IH]; intros s H; [exact H|].
  cbn [sink_ops]. rewrite exec_bind, exec_attempt.
  pose proof (sink_op_keeps_header path fields op s H) as H1.
  destruct (exec (sink_op w path op) s) as [s1 r]. apply IH. exact H1.
Qed.

End SinkFacts.



(** ** The run *)

(** Membership in a list that is written out. *)
Ltac listed := repeat first [apply list_elem_of_here | apply list_elem_of_further].

Lemma for_each_ok {X : Type} (xs : list X) (body : X → LoopM unit) :
  (∀ x l, (body x l).2 = Ok tt) → ∀ l, (for_each xs body l).2 = Ok tt.
Proof.
  intros Hbody. induction xs as [|x xs IH]; intros l; [reflexivity|].
  cbn [for_each]. unfold mbind, loop_mbind.
  pose proof (Hbody x l) as Hx.
  destruct (body x l) as [l' [[]|e]]; cbn [snd] in Hx; [apply IH|discriminate].
Qed.

Lemma await_logger (lvl : Level) (m : Message) (l : Loop) :
  await (logger lvl m) l
  = (mkLoop (logged lvl m (st l)) (orphans l) (schedule l), Ok tt).
Proof. reflexivity. Qed.

(** With nothing else becoming ready, awaiting a coroutine in the main
    coroutine is its sequential meaning. *)
Lemma await_exec {A : Type} (m : Coro A) : ∀ l : Loop,
  schedule l = [] →
  await m l = (mkLoop (exec m (st l)).1 (orphans l) [], (exec m (st l)).2).
Proof.
  induction m as [r|k IH|s' k IH|k IH]; intros l Hl; cbn [await exec].
  - destruct l as [s o sch]. cbn in *. subst. reflexivity.
  - apply IH. exact Hl.
  - rewrite IH by exact Hl. reflexivity.
  - unfold yield_to_loop, next_picks. rewrite Hl. cbn [interleave].
    rewrite IH by reflexivity. reflexivity.
Qed.

(** The statement [run] executes for a query catches whatever its
    [try] block raises. *)
Lemma run_query_ok (w : World) (recursion_limit : nat) (self : ZipRecruiterScraper)
    (query : string) (l : Loop) :
  (run_query w recursion_limit self query l).2 = Ok tt.
Proof.
  unfold run_query, try_except_main.
  destruct (run_try w recursion_limit self query l) as [l' [[]|e]]; reflexivity.
Qed.

(** A failed fetch of the detail page is raised out of [get_details] and
    [process_link]: neither logs the link as yielding no data. *)
Lemma process_link_fetch_failure_escapes (w : World) (self : ZipRecruiterScraper)
    (link : string) (s s1 : State) (e : PyExc) :
  exec (fetch w link) (logged INFO (GettingDetails (last_segment link)) s) = (s1, Raise e) →
  exec (process_link w self link) s = (s1, Raise e).
Proof.
  intros H. unfold process_link. rewrite exec_bind. unfold get_details.
  rewrite exec_bind, exec_logger_info, exec_bind, H. reflexivity.
Qed.

(** A refused [open] is raised out of [save_row] and [process_link]. *)
Lemma process_link_sink_failure_escapes (w : World) (self : ZipRecruiterScraper)
    (link : string) (s s1 : State) (data : JobRecord) (msg : string) :
  exec (get_details w self link) s = (s1, Ok (Some data)) →
  open_error w (clock s1) (filename (csv_writer self)) = Some msg →
  (exec (process_link w self link) s).2 = Raise (OSError msg).
Proof.
  intros H Hopen. unfold process_link.
  rewrite exec_bind, H, exec_bind, exec_logger_info, exec_save_row.
  cbn [clock logged set_log]. rewrite Hopen. reflexivity.
Qed.




(** C2 on the code. The last query lists two postings; the first is
    refused by every library, the second is served by aiohttp. The
    failed fetch is raised out of [process_link] and out of the batch's
    [gather]: the run logs one error for the query and no line naming
    the link. When the answer for the second posting has not arrived by
    the time the first task gives up, the second task is still pending
    when the run ends and no record has been appended, where one is
    expected; when it arrives earlier the record is appended, and the
    failure is reported in the same way. *)
Theorem failed_fetch_aborts_batch :
  let result := main flaky 1000 (config_at today)
                  (initial_loop [[]; [Child 0; Child 0]]) in
  let final := st result.1 in
  let result' := main flaky 1000 (config_at today)
                   (initial_loop [[]; [Child 1; Child 0; Child 0]]) in
  let final' := st result'.1 in
  (exec (process_link flaky demo_scraper "/jobs/a") initial_state).2
    = Raise (Exception_ "All fetch methods failed")
  ∧ (result.2 = Ok tt
     ∧ (INFO, ProcessingLinks 2 "python") ∈ log final
     ∧ last (log final)
       = Some (ERROR, ErrorInRun "python" (Exception_ "All fetch methods failed"))
     ∧ List.filter reports_no_data (log final) = []
     ∧ rows_of (output (config_at today) final) = []
     ∧ length (orphans result.1) = 1%nat)
  ∧ (result'.2 = Ok tt
     ∧ last (log final')
       = Some (ERROR, ErrorInRun "python" (Exception_ "All fetch methods failed"))
     ∧ List.filter reports_no_data (log final') = []
     ∧ map PostUrl (rows_of (output (config_at today) final')) = ["/jobs/b"]
     ∧ length (orphans result'.1) = 0%nat).
Proof.
  intros result final result' final'.
  assert (Hlog : log final =
    [(INFO, StartingScraping); (INFO, StartingToLoad);
     (INFO, FetchingURL "search?page=1&q=aws");
     (INFO, FetchedURL "search?page=1&q=aws");
     (WARNING, NoLinksFound 1); (INFO, NoMorePages);
     (INFO, TotalLinksFound 0); (ERROR, NoLinksToProcess "aws");
     (INFO, StartingToLoad); (INFO, FetchingURL "search?page=1&q=python");
     (INFO, FetchedURL "search?page=1&q=python");
     (INFO, FoundLinks 2 1); (INFO, NoMorePages);
     (INFO, TotalLinksFound 2); (INFO, ProcessingLinks 2 "python");
     (INFO, GettingDetails "a"); (INFO, FetchingURL "a");
     (ERROR, TlsClientError "refused");
     (INFO, GettingDetails "b"); (INFO, FetchingURL "b");
     (ERROR, TlsClientError "timed out");
     (ERROR, AiohttpError "refused"); (ERROR, HttpxError "refused");
     (ERROR, ErrorInRun "python" (Exception_ "All fetch methods failed"))])
    by (vm_compute; reflexivity).
  split; [vm_compute; reflexivity|]. split.
  - split; [vm_compute; reflexivity|].
    rewrite Hlog. split; [listed|]. split; [reflexivity|]. split; [reflexivity|].
    split; vm_compute; reflexivity.
  - repeat split; vm_compute; reflexivity.
Qed.

(** C5 on the code. "aws" lists posting a and "python" lists posting b.
    The links processed for "python" are a and b: [self.job_links] is
    never emptied between queries, so posting a is fetched and written a
    second time. *)
Theorem second_query_reprocesses_first_query_links :
  let result := main healthy 1000 (config_at today) (initial_loop []) in
  let final := st result.1 in
  result.2 = Ok tt
  ∧ (INFO, ProcessingLinks 1 "aws") ∈ log final
  ∧ (INFO, ProcessingLinks 2 "python") ∈ log final
  ∧ job_links final = ["/jobs/a"; "/jobs/b"]
  ∧ map PostUrl (rows_of (output (config_at today) final))
    = ["/jobs/a"; "/jobs/a"; "/jobs/b"].
Proof.
  intros result final.
  assert (Hlog : List.filter
                   (λ entry, match entry.2 with ProcessingLinks _ _ => true | _ => false end)
                   (log final)
                 = [(INFO, ProcessingLinks 1 "aws"); (INFO, ProcessingLinks 2 "python")])
    by (vm_compute; reflexivity).
  split; [vm_compute; reflexivity|].
  assert (Hin : ∀ entry,
            entry ∈ [(INFO, ProcessingLinks 1 "aws"); (INFO, ProcessingLinks 2 "python")] →
            entry ∈ log final).
  { intros entry. rewrite <- Hlog, !list_elem_of_In, filter_In. tauto. }
  split; [apply Hin; listed|]. split; [apply Hin; listed|].
  split; vm_compute; reflexivity.
Qed.
